(** * Lab-inventory dashboard: the tabular pipeline of [script.js]

    A shallow embedding of the browser script (row/record normalisation,
    dashboard charts, table rendering with free-text filtering, form
    submission handlers and CSV export) together with the properties its
    specification states about them.  Line numbers refer to the script
    as it is kept in [src/sw.js], after the service worker.

    Modelling conventions.
    - Strings are sequences of code units in the range U+0000..U+00FF; on
      that range [trim] and [toLowerCase] below are the ECMAScript ones.
    - Cell values are the JSON primitives plus [undefined]; numbers are
      IEEE binary64 values ([spec_float]).  The two conversions between
      numbers and strings that the host provides (digit generation for a
      finite non-zero number, and StringToNumber) are an interface,
      [NumberConversions]; every theorem holds for all its implementations.
    - An object is the list of its own enumerable properties in the order
      [Object.keys] reports them (array-index keys ascending, then the
      other keys in insertion order).  The members an object inherits
      from [Object.prototype] are no part of that list.  They matter
      where the script uses a key that comes from the data.  An
      assignment [obj[k] = v] runs the inherited setter when [k] is
      [__proto__]: [assign] and [tally] below do what the setter does.
      A read [obj[k]] of a name that is inherited and not an own
      property yields the inherited member, where [prop] and [count_of]
      give [undefined] and 0.  For the counts of the bar chart the
      script then stores a text that depends on the host and sorts with
      a comparator that is not an ordering, so the theorems about the
      counts assume that no system identifier is such a name
      ([inherited_name]).  The other reads are of names fixed in the
      script, none of them inherited, and, in the export, of the keys of
      the first record, which a record of another shape may lack. *)

From Stdlib Require Import List String Ascii Bool Arith ZArith NArith Lia.
From Stdlib Require Import Permutation Sorted.
From Stdlib Require Import Floats.SpecFloat.
From Stdlib Require Import Numbers.DecimalString.
Import ListNotations.

Local Open Scope list_scope.
Local Open Scope string_scope.
Local Open Scope nat_scope.

(* ================================================================= *)
(** ** String primitives *)

Module JsString.

(** The one-character string. *)
Definition char (c : ascii) : string := String c EmptyString.

Definition code (c : ascii) : nat := nat_of_ascii c.

(** WhiteSpace and LineTerminator code units below U+0100. *)
Definition is_white_space (c : ascii) : bool :=
  let n := code c in
  ((9 <=? n) && (n <=? 13)) || (n =? 32) || (n =? 160).

Fixpoint trimStart (s : string) : string :=
  match s with
  | EmptyString => EmptyString
  | String c s' => if is_white_space c then trimStart s' else s
  end.

Fixpoint trimEnd (s : string) : string :=
  match s with
  | EmptyString => EmptyString
  | String c s' =>
      match trimEnd s' with
      | EmptyString => if is_white_space c then EmptyString else char c
      | t => String c t
      end
  end.

(** [String.prototype.trim]. *)
Definition trim (s : string) : string := trimEnd (trimStart s).

(** Upper-case letters with a lower-case partner: A-Z, and U+00C0..U+00DE
    except the multiplication sign U+00D7. *)
Definition is_upper (c : ascii) : bool :=
  let n := code c in
  ((65 <=? n) && (n <=? 90))
  || ((192 <=? n) && (n <=? 222) && negb (n =? 215)).

Definition lower_char (c : ascii) : ascii :=
  if is_upper c then ascii_of_nat (code c + 32) else c.

(** [String.prototype.toLowerCase]. *)
Fixpoint toLowerCase (s : string) : string :=
  match s with
  | EmptyString => EmptyString
  | String c s' => String (lower_char c) (toLowerCase s')
  end.

(** [String.prototype.includes]: [t] occurs in [s] as a substring. *)
Fixpoint includes (s t : string) : bool :=
  prefix t s
  || match s with
     | EmptyString => false
     | String _ s' => includes s' t
     end.

(** [Array.prototype.join] on an array of strings. *)
Fixpoint join (sep : string) (l : list string) : string :=
  match l with
  | [] => EmptyString
  | [x] => x
  | x :: l' => x ++ sep ++ join sep l'
  end.

(** [s.replace(/[...]/g, f)] for a character class: every code unit is
    replaced by [f] of it ([f] is the identity outside the class). *)
Fixpoint replace_each (f : ascii -> string) (s : string) : string :=
  match s with
  | EmptyString => EmptyString
  | String c s' => f c ++ replace_each f s'
  end.

(** Concatenation of a list of strings ([+=] in a loop). *)
Definition concat_all (l : list string) : string :=
  fold_right append EmptyString l.

Definition dquote : ascii := ascii_of_nat 34.
Definition squote : ascii := ascii_of_nat 39.
Definition comma : ascii := ascii_of_nat 44.
Definition LF : ascii := ascii_of_nat 10.
Definition CR : ascii := ascii_of_nat 13.

Fixpoint all_chars (p : ascii -> bool) (s : string) : bool :=
  match s with
  | EmptyString => true
  | String c s' => p c && all_chars p s'
  end.

Definition is_digit (c : ascii) : bool :=
  (48 <=? code c) && (code c <=? 57).

(** The number written by a string of decimal digits. *)
Fixpoint digits_value (acc : N) (s : string) : N :=
  match s with
  | EmptyString => acc
  | String c s' => digits_value (acc * 10 + N.of_nat (code c - 48)) s'
  end.

End JsString.

(* ================================================================= *)
(** ** Values *)

(** The host's number/string conversions. [finite_digits m e] is the
    text ECMAScript's Number::toString produces for the positive finite
    number [m * 2^e]; [StringToNumber] is the conversion applied by
    [Number(s)] to a string. *)
Class NumberConversions := {
  finite_digits : positive -> Z -> string;
  StringToNumber : string -> spec_float
}.

Module JsValue.
Import JsString.

Inductive jsval : Type :=
| JUndefined
| JNull
| JBool (b : bool)
| JNum (n : spec_float)
| JStr (s : string).

Definition zero : spec_float := S754_zero false.
Definition one : spec_float := S754_finite false 4503599627370496 (-52).

Definition is_nan (n : spec_float) : bool :=
  match n with S754_nan => true | _ => false end.

Definition is_zero (n : spec_float) : bool :=
  match n with S754_zero _ => true | _ => false end.

(** Strictly below zero. *)
Definition is_negative (n : spec_float) : bool :=
  match n with
  | S754_infinity s => s
  | S754_finite s _ _ => s
  | _ => false
  end.

(** Number::toString. *)
Definition NumberToString {NC : NumberConversions} (n : spec_float) : string :=
  match n with
  | S754_nan => "NaN"
  | S754_zero _ => "0"
  | S754_infinity s => if s then "-Infinity" else "Infinity"
  | S754_finite s m e =>
      (if s then "-" else EmptyString) ++ finite_digits m e
  end.

(** [String(v)], also the conversion of template literals and property
    keys. *)
Definition ToString {NC : NumberConversions} (v : jsval) : string :=
  match v with
  | JUndefined => "undefined"
  | JNull => "null"
  | JBool b => if b then "true" else "false"
  | JNum n => NumberToString n
  | JStr s => s
  end.

(** ToBoolean. *)
Definition truthy (v : jsval) : bool :=
  match v with
  | JUndefined | JNull => false
  | JBool b => b
  | JNum n => negb (is_zero n || is_nan n)
  | JStr s => negb (String.eqb s EmptyString)
  end.

(** [a || b]. *)
Definition js_or (a b : jsval) : jsval := if truthy a then a else b.

(** [Number(v)]. *)
Definition Number {NC : NumberConversions} (v : jsval) : spec_float :=
  match v with
  | JUndefined => S754_nan
  | JNull => zero
  | JBool b => if b then one else zero
  | JNum n => n
  | JStr s => StringToNumber s
  end.

(** [x <= y] on numbers. *)
Definition num_le (x y : spec_float) : bool := SFleb x y.

End JsValue.

(* ================================================================= *)
(** ** Objects as ordered property lists *)

Module JsObject.
Import JsString.

Definition object (A : Type) : Type := list (string * A).

(** An array index is a canonical numeric string below 2^32 - 1. *)
Definition array_index (k : string) : option N :=
  match k with
  | EmptyString => None
  | String c rest =>
      if all_chars is_digit k
         && (negb (Ascii.eqb c "0") || String.eqb rest EmptyString)
      then
        let n := digits_value 0 k in
        if (n <? 4294967295)%N then Some n else None
      else None
  end.

(** [key_before k k']: a new key [k] is enumerated before the existing
    key [k']. *)
Definition key_before (k k' : string) : bool :=
  match array_index k, array_index k' with
  | Some i, Some j => (i <? j)%N
  | Some _, None => true
  | None, _ => false
  end.

Section Ops.
Context {A : Type}.

Fixpoint get (k : string) (o : object A) : option A :=
  match o with
  | [] => None
  | (k', v) :: o' => if String.eqb k k' then Some v else get k o'
  end.

Definition has (k : string) (o : object A) : bool :=
  match get k o with Some _ => true | None => false end.

Fixpoint update (k : string) (v : A) (o : object A) : object A :=
  match o with
  | [] => []
  | (k', v') :: o' =>
      if String.eqb k k' then (k', v) :: o' else (k', v') :: update k v o'
  end.

Fixpoint insert (k : string) (v : A) (o : object A) : object A :=
  match o with
  | [] => [(k, v)]
  | (k', v') :: o' =>
      if key_before k k' then (k, v) :: o else (k', v') :: insert k v o'
  end.

(** The own property [k] of [o] is set to [v]: updated in place
    when there is one, added otherwise.  This is what
    [Object.fromEntries] does for an entry, and what [o[k] = v] does
    when no setter is inherited under the name [k]. *)
Definition set (k : string) (v : A) (o : object A) : object A :=
  if has k o then update k v o else insert k v o.

(** [Object.keys(o)] and [Object.values(o)]. *)
Definition keys (o : object A) : list string := map fst o.
Definition values (o : object A) : list A := map snd o.

(** [Object.fromEntries(entries)]. *)
Definition fromEntries (entries : list (string * A)) : object A :=
  fold_left (fun o kv => set (fst kv) (snd kv) o) entries [].

End Ops.

End JsObject.

Import JsString JsValue.

(** A record of a dataset, and the read [r[k]] of an own property, or
    of a name that is not inherited. *)
Definition record : Type := JsObject.object jsval.

Definition prop (r : record) (k : string) : jsval :=
  match JsObject.get k r with
  | Some v => v
  | None => JUndefined
  end.

(* ================================================================= *)
(** ** Row-to-record normalisation (lines 104-115) *)

(** What [toObjects] may be handed: [undefined], [null] or an array of
    rows. *)
Inductive rows_arg : Type :=
| RowsUndefined
| RowsNull
| Rows (rows : list (list jsval)).

(** [row[j] !== undefined ? row[j] : ''] *)
Definition cell_or_empty (row : list jsval) (j : nat) : jsval :=
  match nth j row JUndefined with
  | JUndefined => JStr EmptyString
  | v => v
  end.

(** An object made by the literal [{}] while the loop fills it: its
    own properties, and whether its prototype still is
    [Object.prototype]. *)
Record literal : Type := {
  own : record;
  has_prototype : bool
}.

Definition empty_object : literal := {| own := []; has_prototype := true |}.

(** [obj[k] = v] for a primitive [v].  Under the name [__proto__] an
    object inherits an accessor from [Object.prototype]: as long as it
    does, the assignment runs the setter, which removes the prototype
    when [v] is [null] and ignores any other primitive; no own property
    is made.  Every other assignment sets an own property, also the one
    to [__proto__] once the prototype is gone. *)
Definition assign (k : string) (v : jsval) (obj : literal) : literal :=
  if String.eqb k "__proto__" && has_prototype obj then
    match v with
    | JNull => {| own := own obj; has_prototype := false |}
    | _ => obj
    end
  else
    {| own := JsObject.set k v (own obj);
       has_prototype := has_prototype obj |}.

(** The inner loop over [j], from index [j] on, for the headers left. *)
Fixpoint fill_record (headers : list string) (j : nat) (row : list jsval)
         (obj : literal) : literal :=
  match headers with
  | [] => obj
  | h :: hs => fill_record hs (S j) row (assign h (cell_or_empty row j) obj)
  end.

Definition header_names {NC : NumberConversions} (row0 : list jsval) : list string :=
  map (fun h => trim (ToString h)) row0.

Definition toObjects {NC : NumberConversions} (rows : rows_arg) : list record :=
  match rows with
  | RowsUndefined | RowsNull => []
  | Rows [] => []
  | Rows (row0 :: data) =>
      let headers := header_names row0 in
      map (fun row => own (fill_record headers 0 row empty_object)) data
  end.

(* ================================================================= *)
(** ** The in-memory datasets and the page *)

Record Store : Type := {
  inventoryData : list record;
  repairsData : list record;
  consumablesData : list record;
  issuedData : list record
}.

(** The part of the document the renderers write: for each element id
    present in the page, its [innerHTML]. *)
Definition document : Type := list (string * string).

Record Page : Type := {
  store : Store;
  dom : document
}.

Definition getElementById (id : string) (d : document) : option string :=
  JsObject.get id d.

Definition set_innerHTML (id html : string) (pg : Page) : Page :=
  {| store := store pg; dom := JsObject.update id html (dom pg) |}.

(* ================================================================= *)
(** ** Charts (lines 131-154) *)

(** A row of the table handed to [arrayToDataTable]. *)
Inductive chart_row : Type :=
| Header (a b : string)
| Data (label : string) (n : Z).

(** [String(i.Condition || '').toLowerCase().includes('work')] *)
Definition is_working {NC : NumberConversions} (i : record) : bool :=
  includes
    (toLowerCase (ToString (js_or (prop i "Condition") (JStr EmptyString))))
    "work".

Definition pieData {NC : NumberConversions} (inventory : list record)
  : list chart_row :=
  let working := Z.of_nat (List.length (filter is_working inventory)) in
  let under := Z.max 0 (Z.of_nat (List.length inventory) - working) in
  [Header "Status" "Count"; Data "Working" working; Data "Under Repair" under].

(** [r['System Number'] || r['systemNumber'] || 'Unknown'], as the
    property key it is used for. *)
Definition system_key {NC : NumberConversions} (r : record) : string :=
  ToString
    (js_or (js_or (prop r "System Number") (prop r "systemNumber"))
           (JStr "Unknown")).

(** The names of the members of [Object.prototype]: the accessor
    [__proto__] and eleven functions. *)
Definition prototype_names : list string :=
  ["__proto__"; "constructor"; "hasOwnProperty"; "isPrototypeOf";
   "propertyIsEnumerable"; "toLocaleString"; "toString"; "valueOf";
   "__defineGetter__"; "__defineSetter__"; "__lookupGetter__";
   "__lookupSetter__"].

Definition inherited_name (k : string) : bool :=
  existsb (String.eqb k) prototype_names.

(** [counts[k]], read where the key is an own property or the result is
    or-ed with 0 and [k] is no inherited name. *)
Definition count_of (counts : JsObject.object Z) (k : string) : Z :=
  match JsObject.get k counts with
  | Some n => n
  | None => 0%Z
  end.

(** [counts[s] = (counts[s]||0)+1].  For [s = __proto__] the read yields
    [Object.prototype], the sum is a text, and the inherited setter
    ignores a text: [counts] stays as it is.  For the function-valued
    members ([constructor], [toString], ...) the sum is the text of the
    function followed by 1, which is stored under [s]; a count of type
    [Z] does not hold it, and identifiers of that kind are excluded
    where the counts are used. *)
Definition tally {NC : NumberConversions} (counts : JsObject.object Z)
           (r : record) : JsObject.object Z :=
  let s := system_key r in
  if String.eqb s "__proto__" then counts
  else JsObject.set s (count_of counts s + 1)%Z counts.

Definition repair_counts {NC : NumberConversions} (repairs : list record)
  : JsObject.object Z :=
  fold_left tally repairs [].

(** [Array.prototype.sort] with a comparator: a stable sort. *)
Fixpoint sort_insert {A : Type} (cmp : A -> A -> Z) (x : A) (l : list A)
  : list A :=
  match l with
  | [] => [x]
  | y :: l' =>
      if (cmp x y <=? 0)%Z then x :: l else y :: sort_insert cmp x l'
  end.

Definition Array_sort {A : Type} (cmp : A -> A -> Z) (l : list A) : list A :=
  fold_right (sort_insert cmp) [] l.

Definition barData {NC : NumberConversions} (repairs : list record)
  : list chart_row :=
  let counts := repair_counts repairs in
  let top :=
    firstn 10
      (Array_sort (fun a b => (count_of counts b - count_of counts a)%Z)
                  (JsObject.keys counts)) in
  let rows := Header "System" "Repairs"
              :: map (fun k => Data k (count_of counts k)) top in
  if List.length rows =? 1 then (rows ++ [Data "None" 0%Z])%list else rows.

(** The two tables [drawCharts] draws. *)
Definition drawCharts {NC : NumberConversions} (st : Store)
  : list chart_row * list chart_row :=
  (pieData (inventoryData st), barData (repairsData st)).

(* ================================================================= *)
(** ** Table rendering (lines 199-220, 241-262, 277-292, 322-337, 356) *)

Definition quoted (s : string) : string := char dquote ++ s ++ char dquote.

Definition escape_char (c : ascii) : string :=
  if Ascii.eqb c "&" then "&amp;"
  else if Ascii.eqb c "<" then "&lt;"
  else if Ascii.eqb c ">" then "&gt;"
  else if Ascii.eqb c dquote then "&quot;"
  else if Ascii.eqb c squote then "&#39;"
  else char c.

Definition escapeHtml {NC : NumberConversions} (s : jsval) : string :=
  replace_each escape_char (ToString (js_or s (JStr EmptyString))).

Definition inventory_headers : list string :=
  ["System Number"; "Item Type"; "Model"; "Serial Number"; "Processor";
   "RAM"; "Storage"; "Purchase Date"; "Location"; "Condition"; "Notes";
   "Invoice Link"].

Definition repairs_headers : list string :=
  ["System Number"; "Repair Date"; "Issue Description"; "Parts Replaced";
   "Estimated Cost"; "Status"; "Repaired By"; "Actual Cost"; "Invoice Link"].

Definition consumables_headers : list string :=
  ["Consumable Name"; "Date"; "Quantity"; "Unit"; "Notes"].

Definition issued_headers : list string :=
  ["Item ID"; "Item Name"; "Issued To"; "Quantity"; "Date"; "Remarks"].

Definition table_open (headers : list string) : string :=
  "<table class=" ++ quoted "table" ++ "><thead><tr>"
  ++ join EmptyString (map (fun h => "<th>" ++ h ++ "</th>") headers)
  ++ "</tr></thead><tbody>".

Definition table_close : string := "</tbody></table>".

(** [r[h] || r[h.toLowerCase()] || ''] *)
Definition cell_value (r : record) (h : string) : jsval :=
  js_or (js_or (prop r h) (prop r (toLowerCase h))) (JStr EmptyString).

Definition escaped_cell {NC : NumberConversions} (v : jsval) : string :=
  "<td>" ++ escapeHtml v ++ "</td>".

Definition link_cell {NC : NumberConversions} (v : jsval) : string :=
  "<td><a href=" ++ quoted (ToString v) ++ " target=" ++ quoted "_blank"
  ++ ">Invoice</a></td>".

(** A cell of the inventory and repairs tables. *)
Definition linked_table_cell {NC : NumberConversions} (h : string) (v : jsval)
  : string :=
  if String.eqb h "Invoice Link" && truthy v then link_cell v
  else escaped_cell v.

(** A cell of the consumables and issued tables. *)
Definition plain_table_cell {NC : NumberConversions} (h : string) (v : jsval)
  : string :=
  escaped_cell v.

Definition table_row (cell : string -> jsval -> string)
           (headers : list string) (r : record) : string :=
  "<tr>" ++ concat_all (map (fun h => cell h (cell_value r h)) headers)
  ++ "</tr>".

Definition table_html (cell : string -> jsval -> string)
           (headers : list string) (rows : list record) : string :=
  table_open headers ++ concat_all (map (table_row cell headers) rows)
  ++ table_close.

(** The predicate of the [filter] in both searchable tables. *)
Definition matches_query {NC : NumberConversions} (q : string) (r : record)
  : bool :=
  if String.eqb q EmptyString then true
  else
    let qq := toLowerCase q in
    existsb (fun v => includes (toLowerCase (ToString v)) qq)
            (JsObject.values r).

Definition render_into (id html : string) (pg : Page) : Page :=
  match getElementById id (dom pg) with
  | None => pg
  | Some _ => set_innerHTML id html pg
  end.

Definition renderInventoryTable {NC : NumberConversions} (q : string) (pg : Page)
  : Page :=
  render_into "inventoryTableWrap"
    (table_html linked_table_cell inventory_headers
       (filter (matches_query q) (inventoryData (store pg))))
    pg.

Definition renderRepairsTable {NC : NumberConversions} (q : string) (pg : Page)
  : Page :=
  render_into "repairsTableWrap"
    (table_html linked_table_cell repairs_headers
       (filter (matches_query q) (repairsData (store pg))))
    pg.

Definition renderConsumablesTable {NC : NumberConversions} (pg : Page) : Page :=
  render_into "consumableTableWrap"
    (table_html plain_table_cell consumables_headers
       (consumablesData (store pg)))
    pg.

Definition renderIssuedTable {NC : NumberConversions} (pg : Page) : Page :=
  render_into "issuedTableWrap"
    (table_html plain_table_cell issued_headers (issuedData (store pg)))
    pg.

(* ================================================================= *)
(** ** Effects of the event handlers *)

Record file : Type := { file_name : string; file_type : string }.

Record invoice : Type := { name : string; b64 : string }.

(** The command objects handed to [apiPost]. *)
Inductive payload : Type :=
| InvoiceCommand (action : string) (data : record) (inv : option invoice)
| DataCommand (action : string) (data : record).

(** What a handler asks of the browser; the index is the type of the
    answer. [Get] answers with the parsed body, or [None] when the body
    is not JSON; [FileToBase64] answers with the text after the comma of
    the data URL, if any. [UpdateDashboardCards], [PopulateIssueSelect]
    and [Draw] stand for the calls of [updateDashboardCards],
    [populateIssueSelect] and the drawing of the two chart tables: what
    they write is not part of [Page]. *)
Inductive event : Type -> Type :=
| PreventDefault : event unit
| Alert (msg : string) : event unit
| FileToBase64 (f : file) : event (option string)
| Post (p : payload) : event string
| Get (action : string) : event (option rows_arg)
| UpdateDashboardCards (st : Store) : event unit
| PopulateIssueSelect (consumables : list record) : event unit
| Draw (tables : list chart_row * list chart_row) : event unit
| ResetForm (form : string) : event unit.

Inductive prog (R : Type) : Type :=
| Ret (r : R)
| Vis (X : Type) (e : event X) (k : X -> prog R).

Arguments Ret {R} r.
Arguments Vis {R X} e k.

Fixpoint bind {R S : Type} (p : prog R) (f : R -> prog S) : prog S :=
  match p with
  | Ret r => f r
  | Vis e k => Vis e (fun x => bind (k x) f)
  end.

Definition trigger {X : Type} (e : event X) : prog X := Vis e Ret.

Notation "x <- p ;; q" := (bind p (fun x => q))
  (at level 61, p at next level, right associativity).
Notation "p ;; q" := (bind p (fun _ => q))
  (at level 61, right associativity).

(** An event that occurred. *)
Inductive occurrence : Type :=
| Occ (X : Type) (e : event X).

Arguments Occ {X} e.

(** The browser: its answer to the [n]-th event of a run. *)
Definition browser : Type := nat -> forall X : Type, event X -> X.

Fixpoint run {R : Type} (env : browser) (n : nat) (p : prog R)
  : list occurrence * R :=
  match p with
  | Ret r => ([], r)
  | Vis e k =>
      let (t, r) := run env (S n) (k (env n _ e)) in (Occ e :: t, r)
  end.

Definition trace {R : Type} (env : browser) (p : prog R) : list occurrence :=
  fst (run env 0 p).

(** The requests sent to the gateway, and the alerts shown, in a trace. *)
Inductive request : Type :=
| POST (p : payload)
| GET (action : string).

Definition request_of (o : occurrence) : list request :=
  match o with
  | Occ (Post p) => [POST p]
  | Occ (Get a) => [GET a]
  | Occ _ => []
  end.

Definition alert_of (o : occurrence) : list string :=
  match o with
  | Occ (Alert msg) => [msg]
  | Occ _ => []
  end.

Definition network_calls (t : list occurrence) : list request :=
  flat_map request_of t.

Definition alerts (t : list occurrence) : list string :=
  flat_map alert_of t.

(* ================================================================= *)
(** ** Gateway helpers and reload (lines 72-101) *)

(** [apiGet]: a body that does not parse yields the empty array. *)
Definition apiGet (action : string) : prog rows_arg :=
  r <- trigger (Get action) ;;
  Ret (match r with Some v => v | None => Rows [] end).

Definition apiPost (p : payload) : prog string := trigger (Post p).

(** [v || []] for the result of [apiGet]. *)
Definition or_empty (v : rows_arg) : rows_arg :=
  match v with
  | Rows l => Rows l
  | RowsUndefined | RowsNull => Rows []
  end.

Definition loadAllData {NC : NumberConversions} (pg : Page) : prog Page :=
  i <- apiGet "getInventory" ;;
  r <- apiGet "getRepairs" ;;
  c <- apiGet "getConsumables" ;;
  s <- apiGet "getIssued" ;;
  let st := {| inventoryData := toObjects (or_empty i);
               repairsData := toObjects (or_empty r);
               consumablesData := toObjects (or_empty c);
               issuedData := toObjects (or_empty s) |} in
  trigger (UpdateDashboardCards st) ;;
  Ret {| store := st; dom := dom pg |}.

(* ================================================================= *)
(** ** Form submission handlers (lines 159-176, 224-239, 309-320) *)

(** [Object.fromEntries(fd.entries())] for text fields. *)
Definition form_object (entries : list (string * string)) : record :=
  JsObject.fromEntries (map (fun kv => (fst kv, JStr (snd kv))) entries).

(** [filePayload ? { name: file.name, b64: filePayload } : null] *)
Definition invoice_of (f : option file) (filePayload : option string)
  : option invoice :=
  match f, filePayload with
  | Some f, Some p =>
      if String.eqb p EmptyString then None
      else Some {| name := file_name f; b64 := p |}
  | _, _ => None
  end.

(** The part shared by the add-inventory and add-repair handlers: the
    PDF check and the reading of the attached file. [after] is what
    a handler does once the invoice payload is known. *)
Definition with_invoice {R : Type} (f : option file) (aborted : R)
           (after : option invoice -> prog R) : prog R :=
  match f with
  | Some fl =>
      if negb (String.eqb (file_type fl) "application/pdf") then
        trigger (Alert "Only PDF invoices allowed") ;; Ret aborted
      else
        p <- trigger (FileToBase64 fl) ;;
        after (invoice_of f p)
  | None => after None
  end.

Definition addInventory_submit {NC : NumberConversions}
           (entries : list (string * string)) (f : option file) (pg : Page)
  : prog Page :=
  trigger PreventDefault ;;
  let obj := form_object entries in
  with_invoice f pg (fun inv =>
    res <- apiPost (InvoiceCommand "addInventory" obj inv) ;;
    trigger (Alert res) ;;
    pg1 <- loadAllData pg ;;
    let pg2 := renderInventoryTable EmptyString pg1 in
    trigger (ResetForm "form-add-inventory") ;;
    Ret pg2).

Definition addRepair_submit {NC : NumberConversions}
           (entries : list (string * string)) (f : option file) (pg : Page)
  : prog Page :=
  trigger PreventDefault ;;
  let obj := form_object entries in
  with_invoice f pg (fun inv =>
    res <- apiPost (InvoiceCommand "addRepair" obj inv) ;;
    trigger (Alert res) ;;
    pg1 <- loadAllData pg ;;
    let pg2 := renderInventoryTable EmptyString
                 (renderRepairsTable EmptyString pg1) in
    trigger (Draw (drawCharts (store pg2))) ;;
    trigger (ResetForm "form-add-repair") ;;
    Ret pg2).

(** [obj.qty = Number(obj.qty || 0)] *)
Definition coerced_qty {NC : NumberConversions} (obj : record) : spec_float :=
  Number (js_or (prop obj "qty") (JNum zero)).

Definition issue_submit {NC : NumberConversions}
           (entries : list (string * string)) (pg : Page) : prog Page :=
  trigger PreventDefault ;;
  let obj0 := form_object entries in
  let qty := coerced_qty obj0 in
  let obj := JsObject.set "qty" (JNum qty) obj0 in
  if num_le qty zero then
    trigger (Alert "Invalid quantity") ;; Ret pg
  else
    res <- apiPost (DataCommand "issueConsumable" obj) ;;
    trigger (Alert res) ;;
    pg1 <- loadAllData pg ;;
    let pg2 := renderIssuedTable (renderConsumablesTable pg1) in
    trigger (PopulateIssueSelect (consumablesData (store pg2))) ;;
    trigger (ResetForm "form-issue") ;;
    Ret pg2.

(* ================================================================= *)
(** ** CSV export (lines 345-353) *)

(** The global [replace] of every double quote by two of them. *)
Definition double_quotes (s : string) : string :=
  replace_each
    (fun c => if Ascii.eqb c dquote then char dquote ++ char dquote
              else char c)
    s.

(** The text written for the field [r[h]]. *)
Definition csv_value {NC : NumberConversions} (v : jsval) : string :=
  ToString (js_or v (JStr EmptyString)).

Definition csv_field {NC : NumberConversions} (v : jsval) : string :=
  quoted (double_quotes (csv_value v)).

Definition csv_line {NC : NumberConversions} (headers : list string) (r : record)
  : string :=
  join "," (map (fun h => csv_field (prop r h)) headers).

(** The text of the download for a non-empty array whose first element
    is [r0]. *)
Definition csv_text {NC : NumberConversions} (r0 : record) (rest : list record)
  : string :=
  let headers := JsObject.keys r0 in
  join (char LF) (join "," headers :: map (csv_line headers) (r0 :: rest)).

(** The outcome of [downloadCsvFromArray]: an alert, or a file offered
    for download. *)
Inductive export_result : Type :=
| NoData (alert : string)
| Download (filename text : string).

Definition downloadCsvFromArray {NC : NumberConversions} (arr : list record)
           (filename : string) : export_result :=
  match arr with
  | [] => NoData "No data"
  | r0 :: rest => Download filename (csv_text r0 rest)
  end.

(* ================================================================= *)
(** ** A CSV reader

    The script has no reader of its own: uploads go through an external
    parsing library, of which the specification says that it follows the
    standard contract, with the header row detected and empty lines
    skipped.  The export is checked against that contract. *)

Module CsvReader.

Inductive state : Type := FieldStart | Unquoted | Quoted | QuoteSeen.

(** The rows are built from the right: the head of the head row is the
    field being read. *)
Definition add_char (c : ascii) (rows : list (list string))
  : list (list string) :=
  match rows with
  | (f :: fs) :: rs => (String c f :: fs) :: rs
  | [] :: rs => [char c] :: rs
  | [] => [[char c]]
  end.

Definition new_field (rows : list (list string)) : list (list string) :=
  match rows with
  | r :: rs => (EmptyString :: r) :: rs
  | [] => [[EmptyString]]
  end.

Definition new_row (rows : list (list string)) : list (list string) :=
  [EmptyString] :: rows.

Definition starts_with_LF (s : string) : bool :=
  match s with
  | String c _ => Ascii.eqb c LF
  | EmptyString => false
  end.

(** Modelled from the spec: the standard CSV contract, for which the
    script relies on a library that is not part of it. Fields are
    separated by commas and records by LF or CRLF; a field may be
    enclosed in double quotes, within which a doubled quote stands for
    one quote. *)
Fixpoint parse (st : state) (s : string) : list (list string) :=
  match s with
  | EmptyString => [[EmptyString]]
  | String c s' =>
      let outside :=
        if Ascii.eqb c comma then new_field (parse FieldStart s')
        else if Ascii.eqb c LF then new_row (parse FieldStart s')
        else if Ascii.eqb c CR && starts_with_LF s' then parse st s'
        else add_char c (parse Unquoted s') in
      match st with
      | Quoted =>
          if Ascii.eqb c dquote then parse QuoteSeen s'
          else add_char c (parse Quoted s')
      | QuoteSeen =>
          if Ascii.eqb c dquote then add_char dquote (parse Quoted s')
          else outside
      | FieldStart =>
          if Ascii.eqb c dquote then parse Quoted s' else outside
      | Unquoted => outside
      end
  end.

Definition blank_row (r : list string) : bool :=
  match r with
  | [f] => String.eqb f EmptyString
  | _ => false
  end.

(** Modelled from the spec: reading with the header row detected;
    each data row is paired with the names of the first row, and, on
    demand, rows that consist of one empty field are skipped. *)
Definition read (skipEmptyLines : bool) (text : string)
  : list (list (string * string)) :=
  let rows := parse FieldStart text in
  let rows := if skipEmptyLines
              then filter (fun r => negb (blank_row r)) rows
              else rows in
  match rows with
  | [] => []
  | header :: data => map (combine header) data
  end.

End CsvReader.

(* ================================================================= *)
(** ** A sample implementation of the number conversions

    Exact on integer-valued numbers below 2^53 and on signed decimal
    integer literals; it serves to evaluate the embedding on examples. *)

Module IntegerConversions.

Definition digits (m : positive) (e : Z) : string :=
  NilZero.string_of_uint (N.to_uint (Z.to_N (Z.shiftl (Zpos m) e))).

Definition of_integer (z : Z) : spec_float :=
  binary_normalize 53 1024 z 0 false.

Definition unsigned_literal (s : string) : option spec_float :=
  match s with
  | EmptyString => None
  | _ => if all_chars is_digit s
         then Some (of_integer (Z.of_N (digits_value 0 s)))
         else None
  end.

Definition parse (s : string) : spec_float :=
  match trim s with
  | EmptyString => zero
  | String c rest as t =>
      let signed :=
        if Ascii.eqb c "-" then option_map SFopp (unsigned_literal rest)
        else if Ascii.eqb c "+" then unsigned_literal rest
        else unsigned_literal t in
      match signed with
      | Some n => n
      | None => S754_nan
      end
  end.

Definition conversions : NumberConversions :=
  {| finite_digits := digits; StringToNumber := parse |}.

End IntegerConversions.

(** A browser whose gateway acknowledges every command and serves
    empty collections. *)
Definition quiet_browser : browser :=
  fun _ X e =>
    match e in event X return X with
    | PreventDefault => tt
    | Alert _ => tt
    | FileToBase64 _ => Some "JVBERi0x"
    | Post _ => "OK"
    | Get _ => Some (Rows [])
    | UpdateDashboardCards _ => tt
    | PopulateIssueSelect _ => tt
    | Draw _ => tt
    | ResetForm _ => tt
    end.

Definition empty_page : Page :=
  {| store := {| inventoryData := []; repairsData := [];
                 consumablesData := []; issuedData := [] |};
     dom := [("inventoryTableWrap", EmptyString);
             ("repairsTableWrap", EmptyString);
             ("consumableTableWrap", EmptyString);
             ("issuedTableWrap", EmptyString)] |}.

(* ================================================================= *)
(** ** Vocabulary of the specification *)

(** [t] occurs in [s] as a substring. *)
Definition occurs_in (t s : string) : Prop :=
  exists pre post, s = pre ++ t ++ post.

(** [t] occurs in [s] when letter case is ignored. *)
Definition occurs_in_ci (t s : string) : Prop :=
  occurs_in (toLowerCase t) (toLowerCase s).

(** The Condition field of a record, as a string, contains "work" in
    any letter case. *)
Definition condition_mentions_work {NC : NumberConversions} (r : record)
  : bool :=
  includes (toLowerCase (ToString (prop r "Condition"))) "work".

(** A character that the CSV header line can carry unquoted. *)
Definition plain_char (c : ascii) : bool :=
  negb (Ascii.eqb c comma || Ascii.eqb c dquote
        || Ascii.eqb c LF || Ascii.eqb c CR).

Definition plain_key (k : string) : bool := all_chars plain_char k.

(** The characters of a string. *)
Definition chars (s : string) : list ascii := list_ascii_of_string s.

(** The characters that end or open markup in element content and in
    quoted attribute values. *)
Definition html_special (c : ascii) : bool :=
  Ascii.eqb c "<" || Ascii.eqb c ">" || Ascii.eqb c dquote
  || Ascii.eqb c squote.

(** The number of such characters in a text. *)
Definition count_special (s : string) : nat :=
  List.length (filter html_special (chars s)).

(** The [innerHTML] of an element after a handler has run. *)
Definition innerHTML (id : string) (pg : Page) : option string :=
  getElementById id (dom pg).

(** Every record of [rest] has the keys of [r0]. *)
Definition homogeneous (r0 : record) (rest : list record) : Prop :=
  Forall (fun r => forall k, In k (JsObject.keys r) <-> In k (JsObject.keys r0))
         rest.



(** Vocabulary for the reader: the text before which a field ends, the
    effect of reading the characters of a field, and the rows read
    after the end of a line. *)
Module CsvText.
Import CsvReader.

Definition at_boundary (s : string) : Prop :=
  s = EmptyString
  \/ exists s', s = String comma s' \/ s = String LF s'.

Definition at_line_end (s : string) : Prop :=
  s = EmptyString \/ exists s', s = String LF s'.

Fixpoint add_string (s : string) (rows : list (list string))
  : list (list string) :=
  match s with
  | EmptyString => rows
  | String c s' => add_char c (add_string s' rows)
  end.

(** The text [t] is read as a field of value [v]. *)
Definition reads_as (t v : string) : Prop :=
  forall rest, at_boundary rest ->
    parse FieldStart (t ++ rest) = add_string v (parse FieldStart rest).

(** A line of fields, each given as its text and its value. *)
Definition line_text (fields : list (string * string)) : string :=
  join "," (map fst fields).

Definition rows_after (rest : string) : list (list string) :=
  match rest with
  | EmptyString => []
  | String _ more => parse FieldStart more
  end.

End CsvText.

(* ================================================================= *)
(** ** Dashboard cards (lines 118-125) *)

(** The numbers [updateDashboardCards] writes into the five cards. *)
Record Cards : Type := {
  card_total : nat;
  card_working : nat;
  card_repair : nat;
  card_consumables : spec_float;
  card_issued : nat
}.

(** [String(r.Status || '').toLowerCase() !== 'completed'] *)
Definition not_completed {NC : NumberConversions} (r : record) : bool :=
  negb (String.eqb
          (toLowerCase (ToString (js_or (prop r "Status") (JStr EmptyString))))
          "completed").

(** [Number(c.Quantity || 0)] *)
Definition quantity {NC : NumberConversions} (c : record) : spec_float :=
  Number (js_or (prop c "Quantity") (JNum zero)).

(** [x + y] on numbers. *)
Definition num_add (x y : spec_float) : spec_float := SFadd 53 1024 x y.

Definition updateDashboardCards {NC : NumberConversions} (st : Store) : Cards :=
  {| card_total := List.length (inventoryData st);
     card_working := List.length (filter is_working (inventoryData st));
     card_repair := List.length (filter not_completed (repairsData st));
     card_consumables :=
       fold_left (fun s c => num_add s (quantity c)) (consumablesData st) zero;
     card_issued := List.length (issuedData st) |}.

(* ================================================================= *)
(** ** Page load, search and the add-consumable form
       (lines 53-61, 64-68, 266-275) *)


(** The handler of the [input] event of the search box. *)
Definition globalSearch_input {NC : NumberConversions} (value : string)
           (pg : Page) : Page :=
  let q := toLowerCase value in
  renderRepairsTable q (renderInventoryTable q pg).


(* ================================================================= *)
(** ** Bulk upload (lines 179-196) *)

(** [String.prototype.endsWith]. *)
Fixpoint endsWith (s suffix : string) : bool :=
  String.eqb s suffix
  || match s with
     | EmptyString => false
     | String _ s' => endsWith s' suffix
     end.

(** What the [complete] callback does with the parsed rows: it posts
    them, and goes on with the response, on the page as it is then. *)
Inductive bulk_post : Type :=
| BulkPost (action : string) (rows : list record)
           (k : string -> Page -> prog Page).

(** What a click on the upload button does: it alerts and returns, or
    hands the file to the CSV parser together with the callback. *)
Inductive bulk_outcome : Type :=
| BulkAlert (msg : string)
| BulkParse (f : file) (complete : list record -> bulk_post).

Definition bulkUpload_click {NC : NumberConversions} (f : option file)
  : bulk_outcome :=
  match f with
  | None => BulkAlert "Select CSV or Excel file"
  | Some fl =>
      let name := toLowerCase (file_name fl) in
      if endsWith name ".csv" then
        BulkParse fl (fun rows =>
          BulkPost "bulkInventory" rows (fun res pg =>
            trigger (Alert res) ;;
            pg1 <- loadAllData pg ;;
            Ret (renderInventoryTable EmptyString pg1)))
      else
        BulkAlert "Please upload CSV. Excel support not included in this build."
  end.

(* ================================================================= *)
(** ** Reading an attachment (lines 358-370) *)

(** [s.split(',')]. *)
Fixpoint split_comma (s : string) : list string :=
  match s with
  | EmptyString => [EmptyString]
  | String c s' =>
      if Ascii.eqb c comma then EmptyString :: split_comma s'
      else match split_comma s' with
           | p :: ps => String c p :: ps
           | [] => [char c]
           end
  end.

(** What [fileToBase64] resolves with for the data URL the reader
    produced: [dataUrl.split(',')[1]], absent when there is no comma. *)
Definition fileToBase64_result (dataUrl : string) : option string :=
  nth_error (split_comma dataUrl) 1.

(* ================================================================= *)
(** ** The service worker (lines 1-11)

    A request is identified by its URL; the cache storage holds the one
    cache the worker opens; the network answers a URL with a response,
    or fails. *)

Module ServiceWorker.

Definition url : Type := string.
Definition response : Type := string.
Definition cache : Type := JsObject.object response.
Definition network : Type := url -> option response.

Definition ASSETS : list url :=
  ["/"; "/index.html"; "/style.css"; "/script.js"].

(** The responses for a list of URLs, if every one of them arrives. *)
Fixpoint fetch_all (net : network) (urls : list url)
  : option (list (url * response)) :=
  match urls with
  | [] => Some []
  | u :: us =>
      match net u, fetch_all net us with
      | Some r, Some rs => Some ((u, r) :: rs)
      | _, _ => None
      end
  end.

(** [cache.put]: the entry of the URL is replaced or added. *)
Definition put (c : cache) (entry : url * response) : cache :=
  if JsObject.has (fst entry) c
  then JsObject.update (fst entry) (snd entry) c
  else (c ++ [entry])%list.

(** [cache.addAll(urls)]: nothing is stored unless every response
    arrives. *)
Definition addAll (net : network) (urls : list url) (c : cache)
  : option cache :=
  match fetch_all net urls with
  | Some entries => Some (fold_left put entries c)
  | None => None
  end.

(** The [install] handler: the cache afterwards, and whether the
    installation succeeded. *)
Definition install (net : network) (c : cache) : cache * bool :=
  match addAll net ASSETS c with
  | Some c' => (c', true)
  | None => (c, false)
  end.

(** How a request is answered. *)
Inductive answer : Type :=
| FromCache (r : response)
| FromNetwork (r : option response).

(** The [fetch] handler: [caches.match(request)], else the network. *)
Definition on_fetch (c : cache) (net : network) (request : url) : answer :=
  match JsObject.get request c with
  | Some r => FromCache r
  | None => FromNetwork (net request)
  end.

End ServiceWorker.

(* ================================================================= *)
(** ** More vocabulary *)

Definition chart_label (row : chart_row) : string :=
  match row with
  | Header a _ => a
  | Data label _ => label
  end.

Definition chart_count (row : chart_row) : Z :=
  match row with
  | Header _ _ => 0%Z
  | Data _ n => n
  end.

Definition sum_counts (rows : list chart_row) : Z :=
  fold_right (fun row s => (chart_count row + s)%Z) 0%Z rows.

(** The requests of a reload. *)
Definition reload_requests : list request :=
  [GET "getInventory"; GET "getRepairs"; GET "getConsumables";
   GET "getIssued"].

(** A character that [escapeHtml] leaves as it is. *)
Definition html_plain (c : ascii) : bool :=
  negb (Ascii.eqb c "&" || html_special c).

(** A text without a comma, such as a MIME header or a base64 body. *)
Definition no_comma (s : string) : bool :=
  all_chars (fun c => negb (Ascii.eqb c comma)) s.

(** The sum of [f] over a list of keys. *)
Definition total (f : string -> Z) (ks : list string) : Z :=
  fold_right (fun k s => (f k + s)%Z) 0%Z ks.

(** The distinct elements of a list, in the order in which they are
    first seen. *)
Definition first_seen (l : list string) : list string :=
  fold_left (fun seen k => if existsb (String.eqb k) seen then seen
                           else (seen ++ [k])%list)
            l [].

(* ================================================================= *)
(** * Properties *)

Ltac case_eqb k k' :=
  destruct (String.eqb_spec k k'); subst.

(** ** Lists *)

Module ListFacts.

Lemma filter_all_in {A : Type} (p : A -> bool) (l : list A) :
  (forall x, In x l -> p x = true) -> filter p l = l.
Proof.
  induction l as [|x l IH]; intros P; simpl; [reflexivity|].
  rewrite (P x (or_introl eq_refl)), IH; [reflexivity|].
  intros y Hy. apply P. now right.
Qed.

Lemma filter_all {A : Type} (p : A -> bool) (l : list A) :
  (forall x, p x = true) -> filter p l = l.
Proof. intros P. apply filter_all_in. auto. Qed.

Lemma filter_length_le {A : Type} (p : A -> bool) (l : list A) :
  List.length (filter p l) <= List.length l.
Proof.
  induction l as [|x l IH]; simpl; [lia|]. destruct (p x); simpl; lia.
Qed.


End ListFacts.

(** ** Property lists *)

Module JsObjectFacts.
Import JsObject.

Section Facts.
Context {A : Type}.
Implicit Types (o : object A) (k : string) (v : A).

Lemma get_None k o : get k o = None <-> ~ In k (keys o).
Proof.
  induction o as [|[k1 v1] o IH]; simpl.
  - tauto.
  - case_eqb k k1.
    + split; [discriminate | intros H; exfalso; apply H; now left].
    + rewrite IH. split; [intros H [E|E]; [congruence | tauto] | tauto].
Qed.

Lemma has_true k o : has k o = true <-> In k (keys o).
Proof.
  unfold has. destruct (get k o) eqn:E.
  - split; [intros _ | reflexivity].
    destruct (in_dec string_dec k (keys o)) as [H|H]; [exact H|].
    apply get_None in H. congruence.
  - apply get_None in E. split; [discriminate | tauto].
Qed.

Lemma has_false k o : has k o = false <-> ~ In k (keys o).
Proof.
  rewrite <- has_true. destruct (has k o); split; congruence.
Qed.

Lemma keys_update k v o : keys (update k v o) = keys o.
Proof.
  induction o as [|[k1 v1] o IH]; simpl; [reflexivity|].
  case_eqb k k1; simpl; [reflexivity | now rewrite IH].
Qed.

Lemma get_update k' k v o :
  get k' (update k v o)
  = if String.eqb k' k then (if has k o then Some v else None)
    else get k' o.
Proof.
  unfold has. induction o as [|[k1 v1] o IH]; simpl.
  - destruct (String.eqb k' k); reflexivity.
  - destruct (String.eqb_spec k k1) as [->|Hk]; simpl.
    + destruct (String.eqb_spec k' k1); reflexivity.
    + rewrite IH. destruct (String.eqb_spec k' k1) as [->|Hk'].
      * destruct (String.eqb_spec k1 k); [congruence | reflexivity].
      * reflexivity.
Qed.

Lemma keys_insert k v o : Permutation (keys (insert k v o)) (k :: keys o).
Proof.
  induction o as [|[k1 v1] o IH]; simpl; [reflexivity|].
  destruct (key_before k k1); simpl; [reflexivity|].
  rewrite IH. apply perm_swap.
Qed.

Lemma get_insert k' k v o :
  get k o = None ->
  get k' (insert k v o) = if String.eqb k' k then Some v else get k' o.
Proof.
  induction o as [|[k1 v1] o IH]; simpl; intros Hk.
  - reflexivity.
  - destruct (String.eqb_spec k k1) as [->|Hne]; [discriminate|].
    destruct (key_before k k1); simpl.
    + reflexivity.
    + rewrite (IH Hk).
      destruct (String.eqb_spec k' k1) as [->|]; [|reflexivity].
      destruct (String.eqb_spec k1 k); [congruence | reflexivity].
Qed.

Lemma get_set k' k v o :
  get k' (set k v o) = if String.eqb k' k then Some v else get k' o.
Proof.
  unfold set. destruct (has k o) eqn:E.
  - rewrite get_update, E. reflexivity.
  - apply get_insert. unfold has in E. destruct (get k o); congruence.
Qed.

Lemma keys_set k v o :
  Permutation (keys (set k v o))
              (if has k o then keys o else k :: keys o).
Proof.
  unfold set. destruct (has k o).
  - now rewrite keys_update.
  - apply keys_insert.
Qed.

Lemma In_keys_set k' k v o :
  In k' (keys (set k v o)) <-> k' = k \/ In k' (keys o).
Proof.
  pose proof (keys_set k v o) as P.
  destruct (has k o) eqn:E.
  - apply has_true in E. split.
    + intros H. right. eapply Permutation_in; eauto.
    + intros [->|H]; eapply Permutation_in;
        try (apply Permutation_sym; exact P); assumption.
  - split.
    + intros H. apply (Permutation_in _ P) in H. destruct H; auto.
    + intros H. apply (Permutation_in _ (Permutation_sym P)).
      destruct H; [left; congruence | now right].
Qed.

Lemma NoDup_keys_set k v o : NoDup (keys o) -> NoDup (keys (set k v o)).
Proof.
  intros H. pose proof (keys_set k v o) as P.
  destruct (has k o) eqn:E.
  - eapply Permutation_NoDup; [apply Permutation_sym; exact P | exact H].
  - apply has_false in E.
    eapply Permutation_NoDup; [apply Permutation_sym; exact P|].
    now constructor.
Qed.

Lemma insert_last k v o :
  array_index k = None -> insert k v o = (o ++ [(k, v)])%list.
Proof.
  intros E. induction o as [|[k1 v1] o IH]; simpl; [reflexivity|].
  unfold key_before. rewrite E. now rewrite IH.
Qed.

Lemma get_In k v o : get k o = Some v -> In (k, v) o.
Proof.
  induction o as [|[k1 v1] o IH]; simpl; [discriminate|].
  case_eqb k k1.
  - intros [= ->]. now left.
  - intros H. right. auto.
Qed.


End Facts.

End JsObjectFacts.

(** ** Strings *)

Module JsStringFacts.

Lemma prefix_spec t s : prefix t s = true <-> exists post, s = t ++ post.
Proof.
  revert s. induction t as [|a t IH]; intros [|b s]; simpl.
  - split; eauto.
  - split; eauto.
  - split; [discriminate | intros [post E]; discriminate].
  - destruct (ascii_dec a b) as [->|Hab].
    + rewrite IH. split; intros [post E]; exists post.
      * now rewrite E.
      * now inversion E.
    + split; [discriminate | intros [post E]; inversion E; congruence].
Qed.

Lemma includes_nil t : includes EmptyString t = prefix t EmptyString.
Proof. cbn [includes]. apply orb_false_r. Qed.

Lemma includes_cons c s t :
  includes (String c s) t = prefix t (String c s) || includes s t.
Proof. reflexivity. Qed.

Lemma includes_spec s t : includes s t = true <-> occurs_in t s.
Proof.
  unfold occurs_in. induction s as [|c s IH].
  - rewrite includes_nil, prefix_spec. split.
    + intros [post E]. exists EmptyString, post. exact E.
    + intros [pre [post E]]. destruct pre; simpl in E.
      * eauto.
      * discriminate.
  - rewrite includes_cons, orb_true_iff, prefix_spec, IH. split.
    + intros [[post E]|[pre [post E]]].
      * exists EmptyString, post. exact E.
      * exists (String c pre), post. simpl. now rewrite E.
    + intros [pre [post E]]. destruct pre as [|c' pre]; simpl in E.
      * left. eauto.
      * right. inversion E; subst. eauto.
Qed.

Lemma includes_empty s : includes s EmptyString = true.
Proof. apply includes_spec. exists EmptyString, s. reflexivity. Qed.

Lemma append_empty_r s : s ++ EmptyString = s.
Proof. induction s; simpl; congruence. Qed.

Lemma append_assoc s t u : (s ++ t) ++ u = s ++ t ++ u.
Proof. induction s; simpl; congruence. Qed.

Lemma chars_app s t : chars (s ++ t) = (chars s ++ chars t)%list.
Proof. unfold chars. induction s; simpl; congruence. Qed.

End JsStringFacts.

(** ** Normalisation *)

Section Normaliser.
Context {NC : NumberConversions}.
Import JsObject JsObjectFacts.

Lemma cell_or_empty_present row j v :
  nth_error row j = Some v -> v <> JUndefined -> cell_or_empty row j = v.
Proof.
  intros E Hv. unfold cell_or_empty.
  rewrite (nth_error_nth _ _ JUndefined E). destruct v; congruence.
Qed.

Lemma cell_or_empty_missing row j :
  List.length row <= j -> cell_or_empty row j = JStr EmptyString.
Proof.
  intros L. unfold cell_or_empty. now rewrite nth_overflow.
Qed.

Lemma assign_ordinary k v o :
  k <> "__proto__" ->
  assign k v o
  = {| own := set k v (own o); has_prototype := has_prototype o |}.
Proof.
  intros N. unfold assign.
  destruct (String.eqb_spec k "__proto__"); [contradiction | reflexivity].
Qed.

Lemma assign_setter v o :
  has_prototype o = true -> own (assign "__proto__" v o) = own o.
Proof. intros E. unfold assign. rewrite E. now destruct v. Qed.

Lemma get_assign h k v o :
  h <> "__proto__" ->
  get h (own (assign k v o))
  = if String.eqb h k then Some v else get h (own o).
Proof.
  intros N. unfold assign.
  destruct (String.eqb_spec k "__proto__") as [->|Nk]; simpl.
  - destruct (String.eqb_spec h "__proto__") as [E|_]; [contradiction|].
    destruct (has_prototype o); simpl.
    + now destruct v.
    + rewrite get_set.
      destruct (String.eqb_spec h "__proto__"); [contradiction|reflexivity].
  - apply get_set.
Qed.

Lemma NoDup_assign k v o :
  NoDup (keys (own o)) -> NoDup (keys (own (assign k v o))).
Proof.
  intros ND. unfold assign.
  destruct (String.eqb k "__proto__" && has_prototype o).
  - now destruct v.
  - simpl. now apply NoDup_keys_set.
Qed.

Lemma fill_record_step h hs j row o :
  h <> "__proto__" ->
  fill_record (h :: hs) j row o
  = fill_record hs (S j) row
      {| own := set h (cell_or_empty row j) (own o);
         has_prototype := has_prototype o |}.
Proof. intros N. simpl. now rewrite assign_ordinary. Qed.

Lemma not_in_cons (h : string) hs :
  ~ In "__proto__" (h :: hs) -> h <> "__proto__" /\ ~ In "__proto__" hs.
Proof. intros P. split; [intros ->; apply P; now left | intros F; apply P; now right]. Qed.

Lemma fill_record_keys hs : forall j row o k,
  ~ In "__proto__" hs ->
  In k (keys (own (fill_record hs j row o)))
  <-> In k hs \/ In k (keys (own o)).
Proof.
  induction hs as [|h hs IH]; intros j row o k P.
  - simpl. tauto.
  - apply not_in_cons in P. destruct P as [N P].
    rewrite fill_record_step by exact N.
    rewrite IH by exact P. simpl. rewrite In_keys_set. intuition congruence.
Qed.

Lemma fill_record_NoDup hs : forall j row o,
  NoDup (keys (own o)) -> NoDup (keys (own (fill_record hs j row o))).
Proof.
  induction hs as [|h hs IH]; intros j row o ND; simpl.
  - exact ND.
  - apply IH. now apply NoDup_assign.
Qed.

Lemma fill_record_perm hs : forall j row o,
  ~ In "__proto__" hs ->
  NoDup (hs ++ keys (own o))%list ->
  Permutation (keys (own (fill_record hs j row o)))
              (hs ++ keys (own o))%list.
Proof.
  induction hs as [|h hs IH]; intros j row o P ND.
  - reflexivity.
  - apply not_in_cons in P. destruct P as [N P].
    rewrite fill_record_step by exact N.
    simpl in ND. inversion ND as [|? ? Hh ND']; subst.
    assert (E : has h (own o) = false).
    { apply has_false. intros F. apply Hh. apply in_or_app. now right. }
    pose proof (keys_set h (cell_or_empty row j) (own o)) as Q.
    rewrite E in Q.
    rewrite IH; [|exact P|]; simpl.
    + rewrite Q. apply Permutation_sym, Permutation_middle.
    + eapply Permutation_NoDup.
      * apply Permutation_app_head, Permutation_sym, Q.
      * eapply Permutation_NoDup; [apply Permutation_middle | exact ND].
Qed.

Lemma fill_record_get_other hs : forall j row o k,
  k <> "__proto__" -> ~ In k hs ->
  get k (own (fill_record hs j row o)) = get k (own o).
Proof.
  induction hs as [|h hs IH]; intros j row o k N Hk; simpl.
  - reflexivity.
  - rewrite IH by (auto; intros F; apply Hk; now right).
    rewrite get_assign by exact N.
    destruct (String.eqb_spec k h) as [->|]; [|reflexivity].
    exfalso. apply Hk. now left.
Qed.

Lemma fill_record_get hs : forall j row o i h,
  h <> "__proto__" ->
  NoDup hs -> nth_error hs i = Some h ->
  get h (own (fill_record hs j row o)) = Some (cell_or_empty row (j + i)).
Proof.
  induction hs as [|h0 hs IH]; intros j row o i h N ND E.
  - destruct i; discriminate.
  - inversion ND as [|? ? Hh ND']; subst. destruct i as [|i]; simpl in *.
    + inversion E; subst.
      rewrite fill_record_get_other by assumption.
      rewrite get_assign by exact N.
      rewrite String.eqb_refl. now rewrite Nat.add_0_r.
    + rewrite (IH (S j) row _ i h N ND' E). now rewrite Nat.add_succ_r.
Qed.

Lemma fill_record_in_order hs : forall j row o,
  ~ In "__proto__" hs ->
  NoDup (hs ++ keys (own o))%list ->
  Forall (fun h => array_index h = None) hs ->
  keys (own (fill_record hs j row o)) = (keys (own o) ++ hs)%list.
Proof.
  induction hs as [|h hs IH]; intros j row o P ND F.
  - simpl. now rewrite app_nil_r.
  - apply not_in_cons in P. destruct P as [N P].
    rewrite fill_record_step by exact N.
    inversion F as [|? ? Fh F']; subst.
    simpl in ND. inversion ND as [|? ? Hh ND']; subst.
    assert (E : has h (own o) = false).
    { apply has_false. intros I. apply Hh. apply in_or_app. now right. }
    assert (S : set h (cell_or_empty row j) (own o)
                = (own o ++ [(h, cell_or_empty row j)])%list).
    { unfold set. rewrite E. now apply insert_last. }
    rewrite IH; [|exact P| |exact F']; simpl.
    + rewrite S. unfold keys. rewrite map_app, <- app_assoc. reflexivity.
    + rewrite S. unfold keys. rewrite map_app. simpl.
      eapply Permutation_NoDup; [|exact ND].
      rewrite app_assoc. apply Permutation_cons_append.
Qed.

Lemma fill_record_length hs : forall j row o,
  ~ In "__proto__" hs ->
  NoDup (hs ++ keys (own o))%list ->
  List.length (keys (own (fill_record hs j row o)))
  = List.length hs + List.length (keys (own o)).
Proof.
  intros j row o P ND.
  rewrite (Permutation_length (fill_record_perm hs j row o P ND)).
  apply length_app.
Qed.

Lemma fill_record_nodup_length hs row :
  ~ In "__proto__" hs ->
  List.length (keys (own (fill_record hs 0 row empty_object)))
  = List.length (nodup string_dec hs).
Proof.
  intros P. apply Permutation_length, NoDup_Permutation.
  - apply fill_record_NoDup. constructor.
  - apply NoDup_nodup.
  - intros k. rewrite fill_record_keys by exact P. rewrite nodup_In.
    simpl. tauto.
Qed.

(** C8. An input that is [undefined], [null], the empty array, or an
    array holding the header row only, normalises to the empty
    sequence of records. *)
Theorem toObjects_degenerate :
  toObjects RowsUndefined = []
  /\ toObjects RowsNull = []
  /\ toObjects (Rows []) = []
  /\ forall row0, toObjects (Rows [row0]) = [].
Proof. repeat split. Qed.

(** C1, as amended. For a header row [row0] and data rows [data],
    normalisation yields one record per data row, in order; when no
    header cell trims to [__proto__], the keys of each record are the
    distinct trimmed header strings, so there are exactly
    [length row0] of them when these strings are pairwise distinct; in
    that case the keys are enumerated in header order unless some are
    array indices, the value under the [j]-th header is the [j]-th
    cell of the row, and the empty string where the row is shorter
    than the header. *)
Theorem toObjects_records (row0 : list jsval) (data : list (list jsval)) :
  List.length (toObjects (Rows (row0 :: data))) = List.length data
  /\ (~ In "__proto__" (header_names row0) ->
      forall i row, nth_error data i = Some row ->
      exists r,
        nth_error (toObjects (Rows (row0 :: data))) i = Some r
        /\ (forall k, In k (keys r) <-> In k (header_names row0))
        /\ List.length (keys r)
           = List.length (nodup string_dec (header_names row0))
        /\ (NoDup (header_names row0) ->
            List.length (keys r) = List.length row0
            /\ Permutation (keys r) (header_names row0)
            /\ (Forall (fun h => array_index h = None) (header_names row0) ->
                keys r = header_names row0)
            /\ forall j h, nth_error (header_names row0) j = Some h ->
                 (forall v, nth_error row j = Some v -> v <> JUndefined ->
                            prop r h = v)
                 /\ (List.length row <= j -> prop r h = JStr EmptyString))).
Proof.
  simpl. split; [apply length_map|].
  intros P i row E.
  exists (own (fill_record (header_names row0) 0 row empty_object)).
  split; [now rewrite nth_error_map, E|].
  split; [intros k; rewrite fill_record_keys by exact P; simpl; tauto|].
  split; [now apply fill_record_nodup_length|].
  intros ND.
  assert (ND' : NoDup (header_names row0 ++ keys (own empty_object))%list)
    by (simpl; now rewrite app_nil_r).
  split; [|split; [|split]].
  - rewrite fill_record_length by assumption. simpl.
    unfold header_names. rewrite length_map. lia.
  - rewrite (fill_record_perm _ 0 row empty_object P ND'). simpl.
    now rewrite app_nil_r.
  - intros F. now rewrite (fill_record_in_order _ 0 row empty_object P ND' F).
  - intros j h Hj. unfold prop.
    assert (N : h <> "__proto__").
    { intros ->. apply P. eapply nth_error_In. exact Hj. }
    rewrite (fill_record_get _ 0 row empty_object j h N ND Hj). simpl. split.
    + intros v Hv Hu. now apply cell_or_empty_present.
    + apply cell_or_empty_missing.
Qed.

End Normaliser.

(** ** Rendering *)

Section Renderer.
Context {NC : NumberConversions}.
Import JsObject JsObjectFacts JsStringFacts ListFacts.

Lemma store_render_into id html pg : store (render_into id html pg) = store pg.
Proof.
  unfold render_into. now destruct (getElementById id (dom pg)).
Qed.

Lemma innerHTML_render_into id html pg old :
  innerHTML id pg = Some old ->
  innerHTML id (render_into id html pg) = Some html.
Proof.
  unfold innerHTML, render_into, getElementById. intros E. rewrite E. simpl.
  rewrite get_update, String.eqb_refl. unfold has. now rewrite E.
Qed.

Lemma innerHTML_render_absent id html pg :
  innerHTML id pg = None -> render_into id html pg = pg.
Proof.
  unfold innerHTML, render_into. now intros ->.
Qed.

Lemma matches_query_spec q r :
  matches_query q r = true
  <-> q = EmptyString
      \/ exists v, In v (values r) /\ occurs_in_ci q (ToString v).
Proof.
  unfold matches_query. destruct (String.eqb_spec q EmptyString) as [->|Hq].
  - split; auto.
  - rewrite existsb_exists. split.
    + intros [v [Hv I]]. right. exists v. split; [exact Hv|].
      now apply includes_spec.
    + intros [F|[v [Hv I]]]; [congruence|].
      exists v. split; [exact Hv|]. now apply includes_spec.
Qed.

(** C3. A record is kept by the filter of the searchable tables
    exactly when the query is empty or the string form of one of its
    field values contains the query, letter case ignored; the empty
    query keeps the whole dataset; rendering leaves the stored datasets
    as they were and writes the table of the kept records. *)
Theorem table_filtering (q : string) :
  (forall r, matches_query q r = true
             <-> q = EmptyString
                 \/ exists v, In v (values r)
                              /\ occurs_in_ci q (ToString v))
  /\ (forall data, filter (matches_query EmptyString) data = data)
  /\ forall pg,
       store (renderInventoryTable q pg) = store pg
       /\ store (renderRepairsTable q pg) = store pg
       /\ (forall old, innerHTML "inventoryTableWrap" pg = Some old ->
             innerHTML "inventoryTableWrap" (renderInventoryTable q pg)
             = Some (table_html linked_table_cell inventory_headers
                       (filter (matches_query q)
                               (inventoryData (store pg)))))
       /\ (forall old, innerHTML "repairsTableWrap" pg = Some old ->
             innerHTML "repairsTableWrap" (renderRepairsTable q pg)
             = Some (table_html linked_table_cell repairs_headers
                       (filter (matches_query q)
                               (repairsData (store pg))))).
Proof.
  split; [apply matches_query_spec|].
  split; [intros data; now apply filter_all|].
  intros pg. repeat split.
  - apply store_render_into.
  - apply store_render_into.
  - intros old E. eapply innerHTML_render_into; eauto.
  - intros old E. eapply innerHTML_render_into; eauto.
Qed.

Lemma is_working_spec r : is_working r = condition_mentions_work r.
Proof.
  unfold is_working, condition_mentions_work, js_or.
  destruct (prop r "Condition") as [| |[|]|[[|]|[|]| |s m e]|s]; try reflexivity.
  simpl. destruct (String.eqb_spec s EmptyString) as [->|]; reflexivity.
Qed.

(** C5. The Working count of the pie chart is the number of inventory
    records whose Condition field, as a string, contains "work" in any
    letter case; the Under Repair count is the number of records minus
    the Working count, floored at zero (the difference is never
    negative); for the three records of the specification the counts
    are 2 and 1. *)
Theorem pie_counts (inventory : list record) :
  let working := List.length (filter condition_mentions_work inventory) in
  pieData inventory
  = [Header "Status" "Count";
     Data "Working" (Z.of_nat working);
     Data "Under Repair"
          (Z.max 0 (Z.of_nat (List.length inventory) - Z.of_nat working))]
  /\ Z.max 0 (Z.of_nat (List.length inventory) - Z.of_nat working)
     = Z.of_nat (List.length inventory - working)
  /\ (forall r, condition_mentions_work r = true
                <-> occurs_in_ci "work" (ToString (prop r "Condition")))
  /\ pieData [[("Condition", JStr "Working")];
              [("Condition", JStr "under repair")];
              [("Condition", JStr "WORKING")]]
     = [Header "Status" "Count"; Data "Working" 2; Data "Under Repair" 1].
Proof.
  intros working. split; [|split; [|split]].
  - unfold pieData, working.
    now rewrite (filter_ext _ _ is_working_spec).
  - pose proof (filter_length_le condition_mentions_work inventory).
    unfold working. lia.
  - intros r. unfold condition_mentions_work. apply includes_spec.
  - reflexivity.
Qed.

(** C9. The value shown in a cell is [r[h]] when that is truthy,
    otherwise the value under the lower-cased header when that is
    truthy, otherwise the empty string; hence a record whose value
    under [h] is falsy (0, false, the empty string, null) gets the same
    cell as a record without the column. *)
Theorem cell_value_choice (r : record) (h : string) :
  cell_value r h
  = (if truthy (prop r h) then prop r h
     else if truthy (prop r (toLowerCase h)) then prop r (toLowerCase h)
     else JStr EmptyString)
  /\ (forall r',
        truthy (prop r h) = false ->
        get h r' = None ->
        prop r' (toLowerCase h) = prop r (toLowerCase h) ->
        cell_value r h = cell_value r' h
        /\ linked_table_cell h (cell_value r h)
           = linked_table_cell h (cell_value r' h))
  /\ truthy (JNum zero) = false
  /\ truthy (JBool false) = false
  /\ truthy (JStr EmptyString) = false
  /\ truthy JNull = false.
Proof.
  split; [|split; [|repeat split]].
  - unfold cell_value, js_or. destruct (truthy (prop r h)) eqn:E.
    + now rewrite E.
    + reflexivity.
  - intros r' F M L.
    assert (E : cell_value r h = cell_value r' h).
    { assert (U : prop r' h = JUndefined) by (unfold prop; now rewrite M).
      unfold cell_value, js_or. rewrite F, U, L. reflexivity. }
    split; [exact E | now rewrite E].
Qed.

Lemma escape_char_safe c :
  forallb (fun c' => negb (html_special c')) (chars (escape_char c)) = true.
Proof. destruct c as [[] [] [] [] [] [] [] []]; reflexivity. Qed.

Lemma escape_char_other c :
  c <> "&"%char -> html_special c = false -> escape_char c = char c.
Proof.
  intros Ha Hs. unfold html_special in Hs. unfold escape_char.
  destruct (Ascii.eqb_spec c "&"); [congruence|].
  destruct (Ascii.eqb c "<"), (Ascii.eqb c ">"), (Ascii.eqb c dquote),
    (Ascii.eqb c squote); simpl in Hs; congruence.
Qed.

Lemma replace_each_safe s :
  Forall (fun c => html_special c = false)
         (chars (replace_each escape_char s)).
Proof.
  induction s as [|c s IH]; simpl.
  - constructor.
  - rewrite chars_app. apply Forall_app. split; [|exact IH].
    apply Forall_forall. intros c' Hc'.
    pose proof (escape_char_safe c) as F. rewrite forallb_forall in F.
    apply F in Hc'. now destruct (html_special c').
Qed.

Lemma count_special_app s t :
  count_special (s ++ t) = count_special s + count_special t.
Proof.
  unfold count_special. now rewrite chars_app, filter_app, length_app.
Qed.

Lemma count_special_concat l :
  count_special (concat_all l) = list_sum (map count_special l).
Proof.
  induction l as [|x l IH]; simpl; [reflexivity|].
  now rewrite count_special_app, IH.
Qed.

Lemma count_special_escapeHtml v : count_special (escapeHtml v) = 0.
Proof.
  unfold count_special, escapeHtml.
  pose proof (replace_each_safe
                (ToString (js_or v (JStr EmptyString)))) as F.
  induction F as [|c l Hc F IH]; simpl; [reflexivity|].
  now rewrite Hc.
Qed.

Lemma count_special_escaped_cell v : count_special (escaped_cell v) = 4.
Proof.
  unfold escaped_cell.
  now rewrite !count_special_app, count_special_escapeHtml.
Qed.

Lemma list_sum_const {A : Type} (f : A -> nat) (c : nat) l :
  (forall x, In x l -> f x = c) -> list_sum (map f l) = List.length l * c.
Proof.
  induction l as [|x l IH]; intros E; simpl; [reflexivity|].
  rewrite (E x) by now left.
  rewrite IH by (intros y Hy; apply E; now right). reflexivity.
Qed.

Lemma count_special_table cell hs rows :
  (forall r h, In r rows -> In h hs ->
               count_special (cell h (cell_value r h)) = 4) ->
  count_special (table_html cell hs rows)
  = count_special (table_open hs)
    + List.length rows * (4 + 4 * List.length hs) + 4.
Proof.
  intros E. unfold table_html.
  rewrite !count_special_app, count_special_concat, map_map.
  rewrite (list_sum_const _ (4 + 4 * List.length hs)).
  - change (count_special table_close) with 4. lia.
  - intros r Hr. unfold table_row.
    rewrite !count_special_app, count_special_concat, map_map.
    rewrite (list_sum_const _ 4) by (intros h Hh; now apply E).
    change (count_special "<tr>") with 2.
    change (count_special "</tr>") with 2. lia.
Qed.

(** C7. In the inventory and repairs tables a cell is the escaped text
    of its value unless the column is Invoice Link and the value is
    truthy, in which case the value is written as it is into the href
    of a link; in the consumables and issued tables every cell is the
    escaped text. Escaping replaces each of the five characters by its
    entity and leaves the others, so the escaped text holds no angle
    bracket and no quote. A table is the table head followed by one
    row per record, and a row is one such cell per column, in order,
    holding the value chosen for that column. Hence the values add no
    angle bracket and no quote to a table: apart from truthy Invoice
    Link values, the number of these characters in a table depends on
    the numbers of rows and columns only. *)
Theorem cells_escaped :
  (forall h v, h <> "Invoice Link" \/ truthy v = false ->
               linked_table_cell h v = "<td>" ++ escapeHtml v ++ "</td>")
  /\ (forall v, truthy v = true ->
                linked_table_cell "Invoice Link" v
                = "<td><a href=" ++ quoted (ToString v) ++ " target="
                  ++ quoted "_blank" ++ ">Invoice</a></td>")
  /\ (forall h v, plain_table_cell h v = "<td>" ++ escapeHtml v ++ "</td>")
  /\ (forall v,
        escapeHtml v
        = replace_each escape_char (ToString (js_or v (JStr EmptyString)))
        /\ Forall (fun c => html_special c = false) (chars (escapeHtml v)))
  /\ (escape_char "&" = "&amp;" /\ escape_char "<" = "&lt;"
      /\ escape_char ">" = "&gt;" /\ escape_char dquote = "&quot;"
      /\ escape_char squote = "&#39;"
      /\ forall c, c <> "&"%char -> html_special c = false ->
                   escape_char c = char c)
  /\ (forall pg old,
       (innerHTML "inventoryTableWrap" pg = Some old ->
        innerHTML "inventoryTableWrap" (renderInventoryTable EmptyString pg)
        = Some (table_html linked_table_cell inventory_headers
                           (inventoryData (store pg))))
       /\ (innerHTML "repairsTableWrap" pg = Some old ->
           innerHTML "repairsTableWrap" (renderRepairsTable EmptyString pg)
           = Some (table_html linked_table_cell repairs_headers
                              (repairsData (store pg))))
       /\ (innerHTML "consumableTableWrap" pg = Some old ->
           innerHTML "consumableTableWrap" (renderConsumablesTable pg)
           = Some (table_html plain_table_cell consumables_headers
                              (consumablesData (store pg))))
       /\ (innerHTML "issuedTableWrap" pg = Some old ->
           innerHTML "issuedTableWrap" (renderIssuedTable pg)
           = Some (table_html plain_table_cell issued_headers
                              (issuedData (store pg)))))
  /\ (forall hs rows,
        table_html linked_table_cell hs rows
        = table_open hs
          ++ concat_all
               (map (fun r =>
                       "<tr>"
                       ++ concat_all
                            (map (fun h =>
                                    let v := cell_value r h in
                                    if String.eqb h "Invoice Link" && truthy v
                                    then "<td><a href=" ++ quoted (ToString v)
                                         ++ " target=" ++ quoted "_blank"
                                         ++ ">Invoice</a></td>"
                                    else "<td>" ++ escapeHtml v ++ "</td>")
                                 hs)
                       ++ "</tr>")
                    rows)
          ++ "</tbody></table>")
  /\ (forall hs rows,
        table_html plain_table_cell hs rows
        = table_open hs
          ++ concat_all
               (map (fun r =>
                       "<tr>"
                       ++ concat_all
                            (map (fun h =>
                                    "<td>" ++ escapeHtml (cell_value r h)
                                    ++ "</td>")
                                 hs)
                       ++ "</tr>")
                    rows)
          ++ "</tbody></table>")
  /\ (forall hs rows,
        count_special (table_html plain_table_cell hs rows)
        = count_special (table_open hs)
          + List.length rows * (4 + 4 * List.length hs) + 4)
  /\ (forall hs rows,
        (forall r, In r rows ->
                   truthy (cell_value r "Invoice Link") = false) ->
        count_special (table_html linked_table_cell hs rows)
        = count_special (table_open hs)
          + List.length rows * (4 + 4 * List.length hs) + 4).
Proof.
  split; [|split; [|split; [|split; [|split; [|split; [|split;
    [|split; [|split]]]]]]]].
  - intros h v [Hh|Hv]; unfold linked_table_cell.
    + destruct (String.eqb_spec h "Invoice Link"); [congruence|reflexivity].
    + rewrite Hv, andb_false_r. reflexivity.
  - intros v Hv. unfold linked_table_cell. rewrite Hv. reflexivity.
  - reflexivity.
  - intros v. split; [reflexivity | apply replace_each_safe].
  - repeat split. apply escape_char_other.
  - intros pg old. repeat split; intros E.
    + unfold renderInventoryTable.
      rewrite (innerHTML_render_into _ _ _ _ E).
      now rewrite (filter_all _ _ (fun r => eq_refl)).
    + unfold renderRepairsTable.
      rewrite (innerHTML_render_into _ _ _ _ E).
      now rewrite (filter_all _ _ (fun r => eq_refl)).
    + eapply innerHTML_render_into; eauto.
    + eapply innerHTML_render_into; eauto.
  - reflexivity.
  - reflexivity.
  - intros hs rows. apply count_special_table.
    intros r h _ _. apply count_special_escaped_cell.
  - intros hs rows F. apply count_special_table.
    intros r h Hr _. unfold linked_table_cell.
    destruct (String.eqb_spec h "Invoice Link") as [->|_]; simpl.
    + rewrite (F r Hr). apply count_special_escaped_cell.
    + apply count_special_escaped_cell.
Qed.

End Renderer.

(** ** Form submission *)

Section Handlers.
Context {NC : NumberConversions}.

Lemma not_pdf_eqb f :
  file_type f <> "application/pdf" ->
  negb (String.eqb (file_type f) "application/pdf") = true.
Proof.
  intros Hf. now destruct (String.eqb_spec (file_type f) "application/pdf").
Qed.

Lemma non_positive_le (n : spec_float) :
  is_zero n = true \/ is_negative n = true -> num_le n zero = true.
Proof.
  destruct n as [[|]|[|]| |[|] m e]; simpl; intros [H|H];
    try discriminate; reflexivity.
Qed.

(** C4. A submission of the add-inventory or add-repair form with an
    attached file whose type is not application/pdf, and a submission
    of the issue form whose quantity coerces to zero or to a negative
    number, show one alert and end: no request is sent to the gateway
    and the page is left as it was. *)
Theorem invalid_submissions_abort (env : browser)
        (entries : list (string * string)) (pg : Page) :
  (forall f, file_type f <> "application/pdf" ->
     run env 0 (addInventory_submit entries (Some f) pg)
     = ([Occ PreventDefault; Occ (Alert "Only PDF invoices allowed")], pg)
     /\ network_calls (trace env (addInventory_submit entries (Some f) pg))
        = []
     /\ run env 0 (addRepair_submit entries (Some f) pg)
        = ([Occ PreventDefault; Occ (Alert "Only PDF invoices allowed")], pg)
     /\ network_calls (trace env (addRepair_submit entries (Some f) pg))
        = [])
  /\ (is_zero (coerced_qty (form_object entries)) = true
      \/ is_negative (coerced_qty (form_object entries)) = true ->
      run env 0 (issue_submit entries pg)
      = ([Occ PreventDefault; Occ (Alert "Invalid quantity")], pg)
      /\ network_calls (trace env (issue_submit entries pg)) = []).
Proof.
  split.
  - intros f Hf.
    assert (A : run env 0 (addInventory_submit entries (Some f) pg)
                = ([Occ PreventDefault;
                    Occ (Alert "Only PDF invoices allowed")], pg)).
    { unfold addInventory_submit, with_invoice.
      rewrite (not_pdf_eqb f Hf). reflexivity. }
    assert (B : run env 0 (addRepair_submit entries (Some f) pg)
                = ([Occ PreventDefault;
                    Occ (Alert "Only PDF invoices allowed")], pg)).
    { unfold addRepair_submit, with_invoice.
      rewrite (not_pdf_eqb f Hf). reflexivity. }
    unfold trace. rewrite A, B. repeat split.
  - intros Hq.
    assert (A : run env 0 (issue_submit entries pg)
                = ([Occ PreventDefault; Occ (Alert "Invalid quantity")], pg)).
    { unfold issue_submit. rewrite (non_positive_le _ Hq). reflexivity. }
    unfold trace. rewrite A. split; reflexivity.
Qed.

(** C10. When the quantity of an issue submission coerces to NaN the
    check for a non-positive quantity does not fire: the command is
    posted with [qty] equal to NaN, the only alert is the response of
    the gateway, and the reload follows. *)
Theorem nan_quantity_is_posted (env : browser)
        (entries : list (string * string)) (pg : Page) :
  is_nan (coerced_qty (form_object entries)) = true ->
  let obj := JsObject.set "qty" (JNum S754_nan) (form_object entries) in
  let command := DataCommand "issueConsumable" obj in
  prop obj "qty" = JNum S754_nan
  /\ network_calls (trace env (issue_submit entries pg))
     = [POST command; GET "getInventory"; GET "getRepairs";
        GET "getConsumables"; GET "getIssued"]
  /\ alerts (trace env (issue_submit entries pg))
     = [env 1 string (Post command)].
Proof.
  intros Hq obj command.
  assert (E : coerced_qty (form_object entries) = S754_nan)
    by (destruct (coerced_qty (form_object entries)); try discriminate;
        reflexivity).
  split; [|split].
  - unfold prop, obj.
    now rewrite JsObjectFacts.get_set, String.eqb_refl.
  - unfold issue_submit. rewrite E. reflexivity.
  - unfold issue_submit. rewrite E. reflexivity.
Qed.

End Handlers.

(** ** Sorting with a comparator *)

Section Sorting.
Context {A : Type} (measure : A -> Z).

(** The comparator of the bar chart: [(a, b) => measure b - measure a]. *)
Let cmp (a b : A) : Z := (measure b - measure a)%Z.
Let ge (a b : A) : Prop := (measure b <= measure a)%Z.

Lemma sort_insert_perm x l : Permutation (sort_insert cmp x l) (x :: l).
Proof.
  induction l as [|y l IH]; simpl; [reflexivity|].
  destruct (cmp x y <=? 0)%Z; [reflexivity|].
  rewrite IH. apply perm_swap.
Qed.

Lemma Array_sort_perm l : Permutation (Array_sort cmp l) l.
Proof.
  induction l as [|x l IH]; simpl; [reflexivity|].
  rewrite sort_insert_perm. now constructor.
Qed.

Lemma sort_insert_sorted x l :
  StronglySorted ge l -> StronglySorted ge (sort_insert cmp x l).
Proof.
  induction 1 as [|y l S IH F]; simpl.
  - repeat constructor.
  - destruct (Z.leb_spec (cmp x y) 0) as [L|L]; unfold cmp in L.
    + constructor; [now constructor|].
      constructor; [unfold ge; lia|].
      eapply Forall_impl; [|exact F]. unfold ge. intros z Hz. lia.
    + constructor; [exact IH|].
      apply Forall_forall. intros z Hz.
      apply (Permutation_in _ (sort_insert_perm x l)) in Hz.
      destruct Hz as [<-|Hz]; [unfold ge; lia|].
      rewrite Forall_forall in F. now apply F.
Qed.

Lemma Array_sort_sorted l : StronglySorted ge (Array_sort cmp l).
Proof.
  induction l as [|x l IH]; simpl; [constructor|].
  now apply sort_insert_sorted.
Qed.

End Sorting.

(** ** Charts *)

Section Charts.
Context {NC : NumberConversions}.
Import JsObject JsObjectFacts.

Lemma inherited_name_proto s :
  inherited_name s = false -> s <> "__proto__".
Proof. intros E ->. discriminate E. Qed.

Lemma tally_ordinary counts r :
  system_key r <> "__proto__" ->
  tally counts r
  = set (system_key r) (count_of counts (system_key r) + 1)%Z counts.
Proof.
  intros N. unfold tally.
  destruct (String.eqb_spec (system_key r) "__proto__");
    [contradiction | reflexivity].
Qed.

Lemma count_of_tally counts r k :
  system_key r <> "__proto__" ->
  count_of (tally counts r) k
  = (count_of counts k + if String.eqb k (system_key r) then 1 else 0)%Z.
Proof.
  intros N. rewrite tally_ordinary by exact N.
  unfold count_of. rewrite get_set.
  destruct (String.eqb_spec k (system_key r)) as [->|]; lia.
Qed.

Lemma count_of_fold repairs : forall counts k,
  Forall (fun r => system_key r <> "__proto__") repairs ->
  count_of (fold_left tally repairs counts) k
  = (count_of counts k
     + Z.of_nat (count_occ string_dec (map system_key repairs) k))%Z.
Proof.
  induction repairs as [|r repairs IH]; intros counts k F; simpl.
  - lia.
  - inversion F as [|? ? N F']; subst.
    rewrite IH by exact F'. rewrite count_of_tally by exact N.
    destruct (string_dec (system_key r) k) as [<-|Hne].
    + rewrite String.eqb_refl. lia.
    + destruct (String.eqb_spec k (system_key r)); [congruence | lia].
Qed.

Lemma keys_fold repairs : forall counts k,
  Forall (fun r => system_key r <> "__proto__") repairs ->
  In k (keys (fold_left tally repairs counts))
  <-> In k (map system_key repairs) \/ In k (keys counts).
Proof.
  induction repairs as [|r repairs IH]; intros counts k F; simpl.
  - tauto.
  - inversion F as [|? ? N F']; subst.
    rewrite IH by exact F'. rewrite tally_ordinary by exact N.
    rewrite In_keys_set. intuition congruence.
Qed.

Lemma NoDup_fold repairs : forall counts,
  NoDup (keys counts) -> NoDup (keys (fold_left tally repairs counts)).
Proof.
  induction repairs as [|r repairs IH]; intros counts ND; simpl.
  - exact ND.
  - apply IH. unfold tally.
    destruct (String.eqb (system_key r) "__proto__"); [exact ND|].
    now apply NoDup_keys_set.
Qed.

Lemma no_inherited_no_proto repairs :
  Forall (fun r => inherited_name (system_key r) = false) repairs ->
  Forall (fun r => system_key r <> "__proto__") repairs.
Proof.
  apply Forall_impl. intros r. apply inherited_name_proto.
Qed.

Lemma system_key_cases r :
  (truthy (prop r "System Number") = true ->
   system_key r = ToString (prop r "System Number"))
  /\ (truthy (prop r "System Number") = false ->
      truthy (prop r "systemNumber") = true ->
      system_key r = ToString (prop r "systemNumber"))
  /\ (truthy (prop r "System Number") = false ->
      truthy (prop r "systemNumber") = false ->
      system_key r = "Unknown").
Proof.
  unfold system_key, js_or. repeat split.
  - intros E. now rewrite !E.
  - intros E F. now rewrite E, !F.
  - intros E F. now rewrite E, !F.
Qed.

(** C6, as amended. The system identifier of a repair is read from
    'System Number', else from 'systemNumber', else it is "Unknown".
    When no identifier is the name of a member of [Object.prototype],
    the bar chart counts the repairs per identifier. Its rows are the
    first ten groups in descending order of count, or the single row
    ("None", 0) when there is no group. *)
Theorem bar_chart (repairs : list record) :
  let counts := repair_counts repairs in
  let count := count_of counts in
  (forall r,
      (truthy (prop r "System Number") = true ->
       system_key r = ToString (prop r "System Number"))
      /\ (truthy (prop r "System Number") = false ->
          truthy (prop r "systemNumber") = true ->
          system_key r = ToString (prop r "systemNumber"))
      /\ (get "System Number" r = None -> get "systemNumber" r = None ->
          system_key r = "Unknown"))
  /\ NoDup (keys counts)
  /\ (Forall (fun r => inherited_name (system_key r) = false) repairs ->
      (forall k, In k (keys counts) <-> In k (map system_key repairs))
      /\ (forall k, count k
                    = Z.of_nat (count_occ string_dec
                                          (map system_key repairs) k))
      /\ exists groups,
           Permutation groups (keys counts)
           /\ StronglySorted (fun a b => (count b <= count a)%Z) groups
           /\ barData repairs
              = Header "System" "Repairs"
                :: match groups with
                   | [] => [Data "None" 0%Z]
                   | _ :: _ => map (fun k => Data k (count k))
                                   (firstn 10 groups)
                   end)
  /\ barData [[("System Number", JStr "A")]; [("System Number", JStr "A")];
              [("System Number", JStr "B")]]
     = [Header "System" "Repairs"; Data "A" 2; Data "B" 1]
  /\ barData [[("systemNumber", JStr "A")]; [("systemNumber", JStr "A")];
              [("systemNumber", JStr "B")]]
     = [Header "System" "Repairs"; Data "A" 2; Data "B" 1].
Proof.
  intros counts count.
  split; [|split; [|split; [|split]]].
  - intros r. destruct (system_key_cases r) as (C1 & C2 & C3).
    repeat split; auto.
    intros E F. apply C3; unfold prop; [rewrite E | rewrite F]; reflexivity.
  - apply NoDup_fold. constructor.
  - intros F. apply no_inherited_no_proto in F. split; [|split].
    + intros k. unfold counts, repair_counts.
      rewrite keys_fold by exact F. simpl. tauto.
    + intros k. unfold count, counts, repair_counts.
      rewrite count_of_fold by exact F. reflexivity.
    + exists (Array_sort (fun a b => (count b - count a)%Z) (keys counts)).
      split; [apply Array_sort_perm|].
      split; [apply (Array_sort_sorted count)|].
      unfold barData. fold counts. fold count.
      destruct (Array_sort _ _) as [|g groups]; reflexivity.
  - reflexivity.
  - reflexivity.
Qed.

End Charts.

(** ** CSV export and re-reading *)

Module CsvFacts.
Import CsvReader CsvText JsStringFacts.

Lemma parse_nonempty st s : exists f fs rs, parse st s = (f :: fs) :: rs.
Proof.
  revert st. induction s as [|c s IH]; intros st.
  - simpl. eauto.
  - assert (A : forall rows, (exists f fs rs, rows = (f :: fs) :: rs) ->
                 exists f fs rs, add_char c rows = (f :: fs) :: rs).
    { intros rows (f & fs & rs & ->). simpl. eauto. }
    assert (D : forall rows, (exists f fs rs, rows = (f :: fs) :: rs) ->
                 exists f fs rs, add_char dquote rows = (f :: fs) :: rs).
    { intros rows (f & fs & rs & ->). simpl. eauto. }
    assert (F : forall rows, exists f fs rs, new_field rows = (f :: fs) :: rs).
    { intros [|r rs]; simpl; eauto. }
    assert (R : forall rows, exists f fs rs, new_row rows = (f :: fs) :: rs).
    { intros rows. unfold new_row. eauto. }
    cbn [parse].
    destruct st; repeat match goal with
      | |- context [if ?b then _ else _] => destruct b
      end; auto.
Qed.

Lemma add_string_head s f fs rs :
  add_string s ((f :: fs) :: rs) = ((s ++ f) :: fs) :: rs.
Proof.
  induction s as [|c s IH]; simpl; [reflexivity|]. now rewrite IH.
Qed.

Lemma parse_boundary st rest :
  at_boundary rest -> st <> Quoted ->
  parse st rest = parse FieldStart rest.
Proof.
  intros [->|[s' [->| ->]]] Hst; destruct st; try congruence; reflexivity.
Qed.

Lemma plain_char_cases c :
  plain_char c = true ->
  Ascii.eqb c comma = false /\ Ascii.eqb c dquote = false
  /\ Ascii.eqb c LF = false /\ Ascii.eqb c CR = false.
Proof.
  unfold plain_char. rewrite negb_true_iff, !orb_false_iff. tauto.
Qed.

Lemma parse_plain k rest : forall st,
  plain_key k = true -> at_boundary rest ->
  st = FieldStart \/ st = Unquoted ->
  parse st (k ++ rest) = add_string k (parse FieldStart rest).
Proof.
  induction k as [|c k IH]; intros st Hk Hr Hst.
  - simpl. apply parse_boundary; [exact Hr|].
    destruct Hst; subst; discriminate.
  - unfold plain_key in Hk. simpl in Hk. apply andb_prop in Hk.
    destruct Hk as [Hc Hk].
    destruct (plain_char_cases c Hc) as (C1 & C2 & C3 & C4).
    change (String c k ++ rest) with (String c (k ++ rest)).
    cbn [parse add_string]. rewrite C1, C2, C3, C4. simpl.
    rewrite (IH Unquoted Hk Hr (or_intror eq_refl)).
    destruct Hst; subst; reflexivity.
Qed.

Lemma reads_as_plain k : plain_key k = true -> reads_as k k.
Proof.
  intros Hk rest Hr. apply parse_plain; auto.
Qed.

Lemma parse_quoted_body s rest :
  at_boundary rest ->
  parse Quoted (double_quotes s ++ String dquote rest)
  = add_string s (parse FieldStart rest).
Proof.
  intros Hr. induction s as [|c s IH].
  - simpl. apply parse_boundary; [exact Hr | discriminate].
  - unfold double_quotes in *. cbn [replace_each].
    destruct (Ascii.eqb c dquote) eqn:Hc.
    + apply Ascii.eqb_eq in Hc. subst c.
      change ((char dquote ++ char dquote) ++ ?x)
        with (String dquote (String dquote x)).
      cbn [append parse add_string]. rewrite !Ascii.eqb_refl.
      f_equal. exact IH.
    + cbn [char append parse add_string]. rewrite Hc.
      f_equal. exact IH.
Qed.

Lemma reads_as_quoted s : reads_as (quoted (double_quotes s)) s.
Proof.
  intros rest Hr. unfold quoted, char.
  cbn [append]. rewrite append_assoc. cbn [append parse].
  rewrite Ascii.eqb_refl. now apply parse_quoted_body.
Qed.

Lemma parse_comma s :
  parse FieldStart (String comma s) = new_field (parse FieldStart s).
Proof. reflexivity. Qed.

Lemma parse_LF s :
  parse FieldStart (String LF s) = new_row (parse FieldStart s).
Proof. reflexivity. Qed.

Lemma at_line_end_boundary rest : at_line_end rest -> at_boundary rest.
Proof. intros [->|[s' ->]]; [now left | right; eauto]. Qed.

Lemma parse_last_field t v rest :
  reads_as t v -> at_line_end rest ->
  parse FieldStart (t ++ rest) = [v] :: rows_after rest.
Proof.
  intros R E. rewrite (R rest (at_line_end_boundary rest E)).
  destruct E as [->|[s' ->]].
  - simpl. now rewrite add_string_head, append_empty_r.
  - rewrite parse_LF. unfold new_row.
    now rewrite add_string_head, append_empty_r.
Qed.

Lemma parse_line fields : forall rest,
  fields <> [] ->
  Forall (fun tv => reads_as (fst tv) (snd tv)) fields ->
  at_line_end rest ->
  parse FieldStart (line_text fields ++ rest)
  = map snd fields :: rows_after rest.
Proof.
  unfold line_text.
  induction fields as [|[t v] fields IH]; intros rest NE R E; [congruence|].
  inversion R as [|? ? Rt R']; subst. simpl in Rt.
  destruct fields as [|tv2 fields].
  - simpl. now apply parse_last_field.
  - change (join "," (map fst ((t, v) :: tv2 :: fields)))
      with (t ++ String comma (join "," (map fst (tv2 :: fields)))).
    rewrite append_assoc.
    change (String comma ?a ++ rest) with (String comma (a ++ rest)).
    rewrite Rt by (right; eauto).
    rewrite parse_comma, (IH rest) by (auto; discriminate).
    simpl. now rewrite add_string_head, append_empty_r.
Qed.

Lemma parse_lines lines :
  lines <> [] ->
  Forall (fun fields =>
            fields <> []
            /\ Forall (fun tv => reads_as (fst tv) (snd tv)) fields) lines ->
  parse FieldStart (join (char LF) (map line_text lines))
  = map (map snd) lines.
Proof.
  induction lines as [|l lines IH]; intros NE F; [congruence|].
  inversion F as [|? ? [Hl Rl] F']; subst.
  destruct lines as [|l2 lines].
  - simpl. rewrite <- (append_empty_r (line_text l)).
    rewrite (parse_line l EmptyString Hl Rl) by now left. reflexivity.
  - change (join (char LF) (map line_text (l :: l2 :: lines)))
      with (line_text l
            ++ String LF (join (char LF) (map line_text (l2 :: lines)))).
    rewrite (parse_line l _ Hl Rl) by (right; eauto).
    unfold rows_after. rewrite IH by (auto; discriminate). reflexivity.
Qed.

End CsvFacts.

Section CsvExport.
Context {NC : NumberConversions}.
Import JsObject JsObjectFacts CsvReader CsvText CsvFacts JsStringFacts.
Import ListFacts.

Lemma read_rows skipEmptyLines text header data :
  parse FieldStart text = header :: data ->
  (skipEmptyLines = true ->
   blank_row header = false
   /\ Forall (fun r => blank_row r = false) data) ->
  read skipEmptyLines text = map (combine header) data.
Proof.
  intros E B. unfold read. rewrite E.
  destruct skipEmptyLines; [|reflexivity].
  destruct (B eq_refl) as [Bh Bd].
  rewrite filter_all_in; [reflexivity|].
  intros row [<-|Hrow].
  - now rewrite Bh.
  - rewrite Forall_forall in Bd. now rewrite (Bd row Hrow).
Qed.

Lemma parse_csv_text r0 rest :
  keys r0 <> [] ->
  Forall (fun k => plain_key k = true) (keys r0) ->
  parse FieldStart (csv_text r0 rest)
  = keys r0
    :: map (fun r => map (fun h => csv_value (prop r h)) (keys r0))
           (r0 :: rest).
Proof.
  intros NE P. set (headers := keys r0) in *.
  set (data_fields := fun r : record =>
         map (fun h => (csv_field (prop r h), csv_value (prop r h)))
             headers).
  set (lines := map (fun k => (k, k)) headers
                :: map data_fields (r0 :: rest)).
  assert (T : csv_text r0 rest = join (char LF) (map line_text lines)).
  { unfold csv_text, lines. fold headers.
    rewrite (map_cons line_text). f_equal. f_equal.
    - unfold line_text. rewrite map_map. cbn [fst]. now rewrite map_id.
    - rewrite map_map. apply map_ext. intros r.
      unfold csv_line, line_text, data_fields. now rewrite map_map. }
  rewrite T, parse_lines.
  - unfold lines. rewrite (map_cons (map snd)). f_equal.
    + rewrite map_map. cbn [snd]. now rewrite map_id.
    + rewrite map_map. apply map_ext. intros r.
      unfold data_fields. now rewrite map_map.
  - discriminate.
  - unfold lines. constructor.
    + split.
      * destruct headers; [congruence | discriminate].
      * apply Forall_map. eapply Forall_impl; [|exact P].
        intros k Hk. now apply reads_as_plain.
    + apply Forall_map, Forall_forall. intros r _. split.
      * unfold data_fields. destruct headers; [congruence | discriminate].
      * unfold data_fields. apply Forall_map, Forall_forall.
        intros h _. apply reads_as_quoted.
Qed.



End CsvExport.


(* ================================================================= *)
(** * Further properties of the script *)

(** ** Letter case *)

Module CaseFacts.

Lemma lower_char_idem c : lower_char (lower_char c) = lower_char c.
Proof. destruct c as [[] [] [] [] [] [] [] []]; reflexivity. Qed.

Lemma toLowerCase_idem s : toLowerCase (toLowerCase s) = toLowerCase s.
Proof.
  induction s as [|c s IH]; simpl; [reflexivity|].
  now rewrite lower_char_idem, IH.
Qed.

Lemma toLowerCase_app s t :
  toLowerCase (s ++ t) = toLowerCase s ++ toLowerCase t.
Proof. induction s as [|c s IH]; simpl; [reflexivity | now rewrite IH]. Qed.

Lemma toLowerCase_empty s :
  String.eqb (toLowerCase s) EmptyString = String.eqb s EmptyString.
Proof. destruct s; reflexivity. Qed.

End CaseFacts.

(** ** Normalisation, beyond distinct header names *)

Module JsObjectKeys.
Import JsObject JsObjectFacts.

Section Keys.
Context {A : Type}.
Implicit Types (o : object A) (k : string) (v : A).

Lemma has_keys k o o' : keys o = keys o' -> has k o = has k o'.
Proof.
  intros E. destruct (has k o') eqn:H'.
  - apply has_true. rewrite E. now apply has_true.
  - apply has_false. rewrite E. now apply has_false.
Qed.

Lemma keys_insert_congr k v v' o : forall o',
  keys o = keys o' -> keys (insert k v o) = keys (insert k v' o').
Proof.
  induction o as [|[k1 v1] o IH]; intros [|[k2 v2] o'] E;
    try discriminate E; [reflexivity|].
  simpl in E. inversion E as [[E1 E2]]. subst k2. simpl.
  destruct (key_before k k1); simpl.
  - now rewrite E2.
  - f_equal. now apply IH.
Qed.

Lemma keys_set_congr k v v' o o' :
  keys o = keys o' -> keys (set k v o) = keys (set k v' o').
Proof.
  intros E. unfold set. rewrite (has_keys k o o' E).
  destruct (has k o').
  - now rewrite !keys_update.
  - now apply keys_insert_congr.
Qed.

End Keys.

End JsObjectKeys.

Section NormaliserMore.
Context {NC : NumberConversions}.
Import JsObject JsObjectFacts JsObjectKeys.

Lemma fill_record_keys_congr hs : forall j j' row row' o o',
  ~ In "__proto__" hs ->
  keys (own o) = keys (own o') ->
  keys (own (fill_record hs j row o))
  = keys (own (fill_record hs j' row' o')).
Proof.
  induction hs as [|h hs IH]; intros j j' row row' o o' P E.
  - exact E.
  - apply not_in_cons in P. destruct P as [N P].
    rewrite !fill_record_step by exact N.
    apply IH; [exact P|]. simpl. now apply keys_set_congr.
Qed.

Lemma fill_record_keys_once hs : forall j j' row row' o o',
  count_occ string_dec hs "__proto__" <= 1 ->
  has_prototype o = true -> has_prototype o' = true ->
  keys (own o) = keys (own o') ->
  keys (own (fill_record hs j row o))
  = keys (own (fill_record hs j' row' o')).
Proof.
  induction hs as [|h hs IH]; intros j j' row row' o o' C T T' E.
  - exact E.
  - simpl in C. destruct (string_dec h "__proto__") as [->|N].
    + assert (P : ~ In "__proto__" hs).
      { apply (count_occ_not_In string_dec). lia. }
      simpl. apply fill_record_keys_congr; [exact P|].
      now rewrite !assign_setter.
    + rewrite !fill_record_step by exact N.
      apply IH; [exact C|exact T|exact T'|].
      simpl. now apply keys_set_congr.
Qed.

(** X1. When the name [__proto__] does not occur twice in the header
    row, the records made from the rows have the same keys in the same
    order, and no key twice, whatever the rows hold: the dataset that
    comes out of [toObjects] is homogeneous. *)
Theorem toObjects_uniform_keys (rows : rows_arg) :
  (forall row0 data, rows = Rows (row0 :: data) ->
     count_occ string_dec (header_names row0) "__proto__" <= 1) ->
  (forall r r', In r (toObjects rows) -> In r' (toObjects rows) ->
                keys r = keys r')
  /\ (forall r, In r (toObjects rows) -> NoDup (keys r))
  /\ (forall r0 rest, toObjects rows = r0 :: rest -> homogeneous r0 rest).
Proof.
  intros C.
  assert (U : forall r r', In r (toObjects rows) -> In r' (toObjects rows) ->
                           keys r = keys r').
  { destruct rows as [| |[|row0 data]]; try (intros r r' []).
    specialize (C row0 data eq_refl).
    simpl. intros r r' Hr Hr'.
    apply in_map_iff in Hr. destruct Hr as (row & <- & _).
    apply in_map_iff in Hr'. destruct Hr' as (row' & <- & _).
    now apply fill_record_keys_once. }
  split; [exact U|]. split.
  - destruct rows as [| |[|row0 data]]; try (intros r []).
    simpl. intros r Hr. apply in_map_iff in Hr. destruct Hr as (row & <- & _).
    apply fill_record_NoDup. constructor.
  - intros r0 rest E. apply Forall_forall. intros r Hr k.
    rewrite (U r r0); [tauto| |]; rewrite E; [now right | now left].
Qed.

Lemma nth_firstn_lt {A : Type} (d : A) (l : list A) : forall n i,
  i < n -> nth i (firstn n l) d = nth i l d.
Proof.
  induction l as [|x l IH]; intros n i L.
  - now rewrite firstn_nil.
  - destruct n as [|n]; [lia|]. destruct i as [|i]; simpl; [reflexivity|].
    apply IH. lia.
Qed.

Lemma fill_record_ext hs : forall j row row' o,
  (forall i, j <= i < j + List.length hs ->
             cell_or_empty row i = cell_or_empty row' i) ->
  fill_record hs j row o = fill_record hs j row' o.
Proof.
  induction hs as [|h hs IH]; intros j row row' o E; simpl.
  - reflexivity.
  - rewrite (E j) by (simpl; lia). apply IH.
    intros i Hi. apply E. simpl. lia.
Qed.

(** X2. The cells of a data row beyond the width of the header row are
    dropped: cutting every data row to that width gives the same
    records. *)
Theorem toObjects_ignores_extra_cells (row0 : list jsval)
        (data : list (list jsval)) :
  toObjects (Rows (row0 :: map (firstn (List.length row0)) data))
  = toObjects (Rows (row0 :: data)).
Proof.
  simpl. rewrite map_map. apply map_ext. intros row. f_equal.
  apply fill_record_ext. intros i Hi. unfold cell_or_empty.
  rewrite nth_firstn_lt; [reflexivity|].
  unfold header_names in Hi. rewrite length_map in Hi. lia.
Qed.

Lemma fill_record_get_last hs : forall j0 row o i h,
  h <> "__proto__" ->
  nth_error hs i = Some h ->
  (forall i', i < i' -> nth_error hs i' <> Some h) ->
  get h (own (fill_record hs j0 row o)) = Some (cell_or_empty row (j0 + i)).
Proof.
  induction hs as [|h0 hs IH]; intros j0 row o i h N E L.
  - destruct i; discriminate.
  - destruct i as [|i]; simpl in *.
    + inversion E; subst.
      rewrite fill_record_get_other; [|exact N|].
      * rewrite get_assign by exact N.
        rewrite String.eqb_refl. now rewrite Nat.add_0_r.
      * intros I. apply In_nth_error in I. destruct I as [n Hn].
        apply (L (S n)); [lia | exact Hn].
    + rewrite (IH (S j0) row _ i h N E).
      * now rewrite Nat.add_succ_r.
      * intros i' Hi'. apply (L (S i')). lia.
Qed.

(** X3. Where a header name other than [__proto__] occurs more than
    once, the record keeps under that name the cell of its last
    column. *)
Theorem toObjects_last_column_wins (row0 : list jsval)
        (data : list (list jsval)) (i j : nat) (row : list jsval)
        (h : string) :
  h <> "__proto__" ->
  nth_error data i = Some row ->
  nth_error (header_names row0) j = Some h ->
  (forall j', j < j' -> nth_error (header_names row0) j' <> Some h) ->
  exists r,
    nth_error (toObjects (Rows (row0 :: data))) i = Some r
    /\ prop r h = cell_or_empty row j.
Proof.
  intros N Hi Hj L.
  exists (own (fill_record (header_names row0) 0 row empty_object)).
  split.
  - simpl. now rewrite nth_error_map, Hi.
  - unfold prop.
    now rewrite (fill_record_get_last _ 0 row empty_object j h N Hj L).
Qed.

End NormaliserMore.

(** ** Search and rendering *)

Module DocumentFacts.
Import JsObject JsObjectFacts.

Section Update.
Context {A : Type}.
Implicit Types (o : object A) (k : string) (v : A).

Lemma update_update k v1 v2 o :
  update k v2 (update k v1 o) = update k v2 o.
Proof.
  induction o as [|[k1 w] o IH]; simpl; [reflexivity|].
  destruct (String.eqb k k1) eqn:E; simpl; rewrite E.
  - reflexivity.
  - now rewrite IH.
Qed.

Lemma update_comm k k' v v' o :
  k <> k' ->
  update k v (update k' v' o) = update k' v' (update k v o).
Proof.
  intros N. induction o as [|[k1 w] o IH]; simpl; [reflexivity|].
  destruct (String.eqb_spec k' k1) as [->|N1];
    destruct (String.eqb_spec k k1) as [->|N2]; simpl.
  - congruence.
  - rewrite String.eqb_refl.
    destruct (String.eqb_spec k k1); [congruence | reflexivity].
  - rewrite String.eqb_refl.
    destruct (String.eqb_spec k' k1); [congruence | reflexivity].
  - destruct (String.eqb_spec k k1); [congruence|].
    destruct (String.eqb_spec k' k1); [congruence|]. now rewrite IH.
Qed.

End Update.

Lemma render_into_twice id h1 h2 pg :
  render_into id h2 (render_into id h1 pg) = render_into id h2 pg.
Proof.
  unfold render_into, getElementById.
  destruct (get id (dom pg)) eqn:E; [|now rewrite E].
  unfold set_innerHTML. simpl.
  rewrite get_update, String.eqb_refl. unfold has. rewrite E.
  now rewrite update_update.
Qed.

Lemma innerHTML_render_into_other id id' html pg :
  id' <> id -> innerHTML id' (render_into id html pg) = innerHTML id' pg.
Proof.
  intros N. unfold innerHTML, render_into, getElementById.
  destruct (get id (dom pg)); [|reflexivity].
  simpl. rewrite get_update.
  destruct (String.eqb_spec id' id); [congruence | reflexivity].
Qed.

Lemma render_into_comm id id' h h' pg :
  id <> id' ->
  render_into id h (render_into id' h' pg)
  = render_into id' h' (render_into id h pg).
Proof.
  intros N. unfold render_into, getElementById.
  destruct (get id (dom pg)) eqn:E; destruct (get id' (dom pg)) eqn:E';
    unfold set_innerHTML; simpl; rewrite ?E, ?E'; simpl;
    rewrite ?get_update.
  - destruct (String.eqb_spec id id'); [congruence|].
    destruct (String.eqb_spec id' id); [congruence|].
    rewrite E, E'. simpl. now rewrite update_comm.
  - destruct (String.eqb_spec id' id); [congruence|]. now rewrite E'.
  - destruct (String.eqb_spec id id'); [congruence|]. now rewrite E.
  - reflexivity.
Qed.

End DocumentFacts.

Section Search.
Context {NC : NumberConversions}.
Import JsObject JsObjectFacts JsStringFacts ListFacts CaseFacts.
Import DocumentFacts.

Lemma matches_query_case q q' r :
  toLowerCase q = toLowerCase q' -> matches_query q r = matches_query q' r.
Proof.
  intros E. unfold matches_query.
  rewrite <- (toLowerCase_empty q), <- (toLowerCase_empty q'), E.
  reflexivity.
Qed.

Lemma filter_query_case q q' data :
  toLowerCase q = toLowerCase q' ->
  filter (matches_query q) data = filter (matches_query q') data.
Proof.
  intros E. apply filter_ext. intros r. now apply matches_query_case.
Qed.

Lemma render_query_case q q' pg :
  toLowerCase q = toLowerCase q' ->
  renderInventoryTable q pg = renderInventoryTable q' pg
  /\ renderRepairsTable q pg = renderRepairsTable q' pg.
Proof.
  intros E. unfold renderInventoryTable, renderRepairsTable.
  now rewrite !(filter_query_case q q' _ E).
Qed.

(** X4. The tables do not depend on the letter case of the query: two
    queries that differ in case only select the same records and give
    the same page. *)
Theorem search_ignores_query_case (q q' : string) :
  toLowerCase q = toLowerCase q' ->
  (forall data, filter (matches_query q) data
                = filter (matches_query q') data)
  /\ forall pg,
       renderInventoryTable q pg = renderInventoryTable q' pg
       /\ renderRepairsTable q pg = renderRepairsTable q' pg.
Proof.
  intros E. split.
  - intros data. now apply filter_query_case.
  - intros pg. now apply render_query_case.
Qed.

Lemma matches_query_part pre q post r :
  matches_query (pre ++ q ++ post) r = true -> matches_query q r = true.
Proof.
  rewrite !matches_query_spec.
  intros [E|[v [Hv O]]].
  - left. destruct pre; [|discriminate E]. destruct q; [reflexivity|].
    discriminate E.
  - right. exists v. split; [exact Hv|].
    unfold occurs_in_ci, occurs_in in *. destruct O as [a [b O]].
    rewrite !toLowerCase_app in O.
    exists (a ++ toLowerCase pre), (toLowerCase post ++ b).
    rewrite O. now rewrite !append_assoc.
Qed.

Lemma filter_filter_implied {A : Type} (p p' : A -> bool) (l : list A) :
  (forall x, p x = true -> p' x = true) ->
  filter p (filter p' l) = filter p l.
Proof.
  intros I. induction l as [|x l IH]; simpl; [reflexivity|].
  destruct (p' x) eqn:P'; simpl.
  - now rewrite IH.
  - destruct (p x) eqn:P; [|exact IH].
    rewrite (I x P) in P'. discriminate.
Qed.

(** X5. For text of code units up to U+00FF, the strings of this
    development, on which lower-casing works character by character:
    extending a query narrows the result. A record that matches a
    query matches every part of the query, so searching for the longer
    text within the result for the shorter one loses nothing. (Beyond
    that range lower-casing depends on the neighbouring characters,
    as for the Greek capital sigma, and the property does not carry
    over.) *)
Theorem search_narrows (pre q post : string) :
  (forall r, matches_query (pre ++ q ++ post) r = true ->
             matches_query q r = true)
  /\ (forall data,
        filter (matches_query (pre ++ q ++ post))
               (filter (matches_query q) data)
        = filter (matches_query (pre ++ q ++ post)) data)
  /\ (forall data, incl (filter (matches_query (pre ++ q ++ post)) data)
                        (filter (matches_query q) data)).
Proof.
  split; [apply matches_query_part|]. split.
  - intros data. apply filter_filter_implied. apply matches_query_part.
  - intros data r Hr. apply filter_In in Hr. destruct Hr as [I M].
    apply filter_In. split; [exact I|]. now apply matches_query_part in M.
Qed.

(** X6. A table shows the latest rendering only: rendering it again, with
    the same or another query, gives the page that the second rendering
    alone gives. *)
Theorem render_overwrites (q1 q2 : string) (pg : Page) :
  renderInventoryTable q2 (renderInventoryTable q1 pg)
  = renderInventoryTable q2 pg
  /\ renderRepairsTable q2 (renderRepairsTable q1 pg)
     = renderRepairsTable q2 pg
  /\ renderConsumablesTable (renderConsumablesTable pg)
     = renderConsumablesTable pg
  /\ renderIssuedTable (renderIssuedTable pg) = renderIssuedTable pg.
Proof.
  unfold renderInventoryTable, renderRepairsTable, renderConsumablesTable,
    renderIssuedTable.
  rewrite !store_render_into, !render_into_twice. repeat split.
Qed.

(** X7. A renderer writes its own wrapper and nothing else, so the order
    in which the tables are rendered does not matter. *)
Theorem renderers_independent (q q' : string) (pg : Page) :
  (forall id, id <> "inventoryTableWrap" ->
              innerHTML id (renderInventoryTable q pg) = innerHTML id pg)
  /\ (forall id, id <> "repairsTableWrap" ->
                 innerHTML id (renderRepairsTable q pg) = innerHTML id pg)
  /\ (forall id, id <> "consumableTableWrap" ->
                 innerHTML id (renderConsumablesTable pg) = innerHTML id pg)
  /\ (forall id, id <> "issuedTableWrap" ->
                 innerHTML id (renderIssuedTable pg) = innerHTML id pg)
  /\ renderInventoryTable q (renderRepairsTable q' pg)
     = renderRepairsTable q' (renderInventoryTable q pg)
  /\ renderInventoryTable q (renderConsumablesTable pg)
     = renderConsumablesTable (renderInventoryTable q pg)
  /\ renderInventoryTable q (renderIssuedTable pg)
     = renderIssuedTable (renderInventoryTable q pg)
  /\ renderRepairsTable q (renderConsumablesTable pg)
     = renderConsumablesTable (renderRepairsTable q pg)
  /\ renderRepairsTable q (renderIssuedTable pg)
     = renderIssuedTable (renderRepairsTable q pg)
  /\ renderConsumablesTable (renderIssuedTable pg)
     = renderIssuedTable (renderConsumablesTable pg).
Proof.
  unfold renderInventoryTable, renderRepairsTable, renderConsumablesTable,
    renderIssuedTable.
  rewrite !store_render_into.
  repeat split;
    try (intros id N; now apply innerHTML_render_into_other);
    apply render_into_comm; discriminate.
Qed.

(** X8. Typing into the search box re-renders the inventory and repairs
    tables for the typed text and touches nothing else: the datasets
    and every other element stay as they were, and lower-casing the
    text first makes no difference to what is shown. *)
Theorem globalSearch_input_effect (value : string) (pg : Page) :
  store (globalSearch_input value pg) = store pg
  /\ (forall id, id <> "inventoryTableWrap" -> id <> "repairsTableWrap" ->
                 innerHTML id (globalSearch_input value pg)
                 = innerHTML id pg)
  /\ globalSearch_input value pg
     = renderRepairsTable value (renderInventoryTable value pg)
  /\ (forall old, innerHTML "inventoryTableWrap" pg = Some old ->
        innerHTML "inventoryTableWrap" (globalSearch_input value pg)
        = Some (table_html linked_table_cell inventory_headers
                  (filter (matches_query value)
                          (inventoryData (store pg))))).
Proof.
  assert (L : toLowerCase (toLowerCase value) = toLowerCase value)
    by apply toLowerCase_idem.
  pose proof (fun data => filter_query_case (toLowerCase value) value
                                             data L) as F.
  pose proof (fun pg => render_query_case (toLowerCase value) value pg L)
    as R.
  unfold globalSearch_input. split; [|split; [|split]].
  - unfold renderRepairsTable, renderInventoryTable.
    now rewrite !store_render_into.
  - intros id N1 N2. unfold renderRepairsTable, renderInventoryTable.
    rewrite !innerHTML_render_into_other by assumption. reflexivity.
  - cbv zeta. destruct (R pg) as [-> _].
    destruct (R (renderInventoryTable value pg)) as [_ ->]. reflexivity.
  - intros old E. cbv zeta. unfold renderRepairsTable.
    rewrite innerHTML_render_into_other by discriminate.
    unfold renderInventoryTable.
    rewrite (innerHTML_render_into _ _ _ _ E). now rewrite F.
Qed.

End Search.

(** ** Escaping *)

Section Escaping.
Context {NC : NumberConversions}.
Import JsStringFacts.

Lemma escapeHtml_string s :
  escapeHtml (JStr s) = replace_each escape_char s.
Proof.
  unfold escapeHtml, js_or. simpl.
  destruct (String.eqb_spec s EmptyString) as [->|]; reflexivity.
Qed.

Lemma html_plain_cases c :
  html_plain c = true -> c <> "&"%char /\ html_special c = false.
Proof.
  unfold html_plain. rewrite negb_true_iff, orb_false_iff.
  intros [A S]. split; [|exact S].
  intros ->. discriminate A.
Qed.

(** X9. Text without an ampersand, an angle bracket or a quote is shown
    as it is. *)
Theorem escapeHtml_plain_text (s : string) :
  all_chars html_plain s = true -> escapeHtml (JStr s) = s.
Proof.
  rewrite escapeHtml_string. induction s as [|c s IH]; simpl.
  - reflexivity.
  - intros H. apply andb_prop in H. destruct H as [Hc Hs].
    destruct (html_plain_cases c Hc) as [A S].
    rewrite (escape_char_other c A S), (IH Hs). reflexivity.
Qed.

Lemma escape_char_head c :
  exists a rest, escape_char c = String a rest.
Proof.
  unfold escape_char.
  repeat match goal with
         | |- context [if ?b then _ else _] => destruct b
         end; unfold char; eauto.
Qed.

Lemma escape_char_prefix c c' x y :
  escape_char c ++ x = escape_char c' ++ y -> c = c' /\ x = y.
Proof.
  unfold escape_char, char.
  destruct (Ascii.eqb_spec c "&"); [subst c|];
    [|destruct (Ascii.eqb_spec c "<"); [subst c|];
      [|destruct (Ascii.eqb_spec c ">"); [subst c|];
        [|destruct (Ascii.eqb_spec c dquote); [subst c|];
          [|destruct (Ascii.eqb_spec c squote); [subst c|]]]]];
    (destruct (Ascii.eqb_spec c' "&"); [subst c'|];
     [|destruct (Ascii.eqb_spec c' "<"); [subst c'|];
       [|destruct (Ascii.eqb_spec c' ">"); [subst c'|];
         [|destruct (Ascii.eqb_spec c' dquote); [subst c'|];
           [|destruct (Ascii.eqb_spec c' squote); [subst c'|]]]]]);
    simpl; intros H; inversion H; subst;
    try (split; reflexivity); try congruence.
Qed.

Lemma replace_each_escape_inj s : forall t,
  replace_each escape_char s = replace_each escape_char t -> s = t.
Proof.
  induction s as [|c s IH]; intros [|c' t] E; simpl in E.
  - reflexivity.
  - destruct (escape_char_head c') as (a & rest & R). rewrite R in E.
    discriminate E.
  - destruct (escape_char_head c) as (a & rest & R). rewrite R in E.
    discriminate E.
  - apply escape_char_prefix in E. destruct E as [-> E].
    now rewrite (IH t E).
Qed.

(** X10. Escaping loses nothing: two texts with the same escaped form are
    the same text. *)
Theorem escapeHtml_injective (s t : string) :
  escapeHtml (JStr s) = escapeHtml (JStr t) -> s = t.
Proof.
  rewrite !escapeHtml_string. apply replace_each_escape_inj.
Qed.

End Escaping.

(** ** Charts and dashboard cards *)

Module SumFacts.

Lemma total_perm f ks ks' :
  Permutation ks ks' -> total f ks = total f ks'.
Proof.
  induction 1; simpl; lia.
Qed.

Lemma total_app f ks ks' :
  total f (ks ++ ks')%list = (total f ks + total f ks')%Z.
Proof. induction ks; simpl; lia. Qed.

Lemma total_nonneg f ks :
  (forall k, 0 <= f k)%Z -> (0 <= total f ks)%Z.
Proof.
  intros N. induction ks as [|k ks IH]; simpl; [lia|].
  specialize (N k). lia.
Qed.

Lemma total_firstn f n ks :
  (forall k, 0 <= f k)%Z -> (total f (firstn n ks) <= total f ks)%Z.
Proof.
  intros N. rewrite <- (firstn_skipn n ks) at 2. rewrite total_app.
  pose proof (total_nonneg f (skipn n ks) N). lia.
Qed.

Lemma total_indicator x ks :
  NoDup ks -> In x ks ->
  total (fun k => if string_dec x k then 1 else 0)%Z ks = 1%Z.
Proof.
  induction 1 as [|k ks Hk ND IH]; intros I; [destruct I|].
  simpl. destruct (string_dec x k) as [->|N].
  - assert (Z : total (fun k0 => if string_dec k k0 then 1 else 0)%Z ks
                = 0%Z).
    { clear IH I ND. induction ks as [|k1 ks IH]; [reflexivity|].
      simpl. destruct (string_dec k k1) as [->|].
      - exfalso. apply Hk. now left.
      - rewrite IH; [reflexivity|]. intros F. apply Hk. now right. }
    rewrite Z. reflexivity.
  - destruct I as [->|I]; [congruence|]. rewrite (IH I). reflexivity.
Qed.

Lemma total_plus f g ks :
  total (fun k => f k + g k)%Z ks = (total f ks + total g ks)%Z.
Proof. induction ks; simpl; lia. Qed.

Lemma total_ext f g ks :
  (forall k, f k = g k) -> total f ks = total g ks.
Proof. intros E. induction ks; simpl; [reflexivity|]. now rewrite E, IHks. Qed.

Lemma total_zero ks : total (fun _ => 0%Z) ks = 0%Z.
Proof. induction ks; simpl; lia. Qed.

(** Counting the occurrences of every key of a list that covers [l]
    counts every element of [l] once. *)
Lemma total_count_occ ks : forall l,
  NoDup ks -> (forall x, In x l -> In x ks) ->
  total (fun k => Z.of_nat (count_occ string_dec l k)) ks
  = Z.of_nat (List.length l).
Proof.
  intros l ND. induction l as [|x l IH]; intros C.
  - rewrite (total_ext _ (fun _ => 0%Z)) by reflexivity.
    simpl. apply total_zero.
  - rewrite (total_ext _ (fun k => Z.of_nat (count_occ string_dec l k)
                                 + (if string_dec x k then 1 else 0))%Z).
    + rewrite total_plus, IH, total_indicator.
      * simpl List.length. lia.
      * exact ND.
      * apply C. now left.
      * intros y Hy. apply C. now right.
    + intros k. simpl. destruct (string_dec x k); lia.
Qed.

Lemma NoDup_firstn {A : Type} (n : nat) (l : list A) :
  NoDup l -> NoDup (firstn n l).
Proof.
  intros ND. rewrite <- (firstn_skipn n l) in ND.
  now apply NoDup_app_remove_r in ND.
Qed.

End SumFacts.

Section ChartsMore.
Context {NC : NumberConversions}.
Import JsObject JsObjectFacts ListFacts SumFacts.

Lemma barData_groups repairs :
  let counts := repair_counts repairs in
  let groups :=
    Array_sort (fun a b => (count_of counts b - count_of counts a)%Z)
               (keys counts) in
  barData repairs
  = Header "System" "Repairs"
    :: match groups with
       | [] => [Data "None" 0%Z]
       | _ :: _ => map (fun k => Data k (count_of counts k))
                       (firstn 10 groups)
       end.
Proof.
  intros counts groups. unfold barData. fold counts. fold groups.
  destruct groups; reflexivity.
Qed.

Lemma repair_counts_facts repairs :
  Forall (fun r => inherited_name (system_key r) = false) repairs ->
  let counts := repair_counts repairs in
  NoDup (keys counts)
  /\ (forall k, In k (keys counts) <-> In k (map system_key repairs))
  /\ (forall k, count_of counts k
                = Z.of_nat (count_occ string_dec
                                      (map system_key repairs) k)).
Proof.
  intros F counts. apply no_inherited_no_proto in F.
  unfold counts, repair_counts. split; [|split].
  - apply NoDup_fold. constructor.
  - intros k. rewrite keys_fold by exact F. simpl. tauto.
  - intros k. rewrite count_of_fold by exact F. reflexivity.
Qed.

Lemma sum_counts_data (f : string -> Z) ks :
  sum_counts (map (fun k => Data k (f k)) ks) = total f ks.
Proof. induction ks; simpl; [reflexivity|]. unfold sum_counts in *. simpl. lia. Qed.

Lemma bar_rows_bounds (count : string -> Z) (groups : list string) :
  NoDup groups ->
  (forall k, In k groups -> (1 <= count k)%Z) ->
  let rows :=
    Header "System" "Repairs"
    :: match groups with
       | [] => [Data "None" 0%Z]
       | _ :: _ => map (fun k => Data k (count k)) (firstn 10 groups)
       end in
  2 <= List.length rows <= 11
  /\ NoDup (map chart_label (tl rows))
  /\ (groups <> [] ->
      Forall (fun row => (1 <= chart_count row)%Z) (tl rows))
  /\ (sum_counts rows <= total count groups)%Z
  /\ (List.length groups <= 10 -> sum_counts rows = total count groups).
Proof.
  intros ND P. destruct groups as [|g groups].
  - simpl. repeat split; try lia.
    + repeat constructor. simpl. tauto.
    + congruence.
  - lazy beta iota zeta.
    assert (Lgs : 1 <= List.length (g :: groups)) by (simpl; lia).
    remember (g :: groups) as gs eqn:Hgs. clear Hgs.
    assert (S : sum_counts (Header "System" "Repairs"
                            :: map (fun k => Data k (count k))
                                   (firstn 10 gs))
                = total count (firstn 10 gs)).
    { rewrite <- sum_counts_data. unfold sum_counts. simpl. lia. }
    assert (N : forall k, In k gs -> (0 <= count k)%Z)
      by (intros k Hk; specialize (P k Hk); lia).
    rewrite S. cbn [tl List.length].
    rewrite length_map, length_firstn, map_map. cbn [chart_label].
    rewrite map_id. split; [|split; [|split; [|split]]].
    + lia.
    + now apply NoDup_firstn.
    + intros _. apply Forall_map, Forall_forall. intros k Hk. simpl.
      apply P. rewrite <- (firstn_skipn 10 gs). apply in_or_app. now left.
    + rewrite <- (firstn_skipn 10 gs) at 2. rewrite total_app.
      assert (0 <= total count (skipn 10 gs))%Z; [|lia].
      assert (I : forall k, In k (skipn 10 gs) -> In k gs)
        by (intros k Hk; rewrite <- (firstn_skipn 10 gs);
            apply in_or_app; now right).
      induction (skipn 10 gs) as [|k l IH]; simpl; [lia|].
      assert (0 <= count k)%Z by (apply N, I; now left).
      assert (0 <= total count l)%Z by (apply IH; intros; apply I; now right).
      lia.
    + intros L. now rewrite firstn_all2.
Qed.

(** X11. When no system identifier is the name of a member of
    [Object.prototype], the bar chart has between one and ten bars,
    their labels are pairwise distinct, every bar of a non-empty
    dataset stands for at least one repair, and the bars never add up
    to more than the number of repairs; they add up to exactly that
    number when there are at most ten distinct system identifiers. *)
Theorem bar_chart_bounds (repairs : list record) :
  Forall (fun r => inherited_name (system_key r) = false) repairs ->
  let rows := barData repairs in
  2 <= List.length rows <= 11
  /\ hd_error rows = Some (Header "System" "Repairs")
  /\ NoDup (map chart_label (tl rows))
  /\ (repairs <> [] ->
      Forall (fun row => (1 <= chart_count row)%Z) (tl rows))
  /\ (sum_counts rows <= Z.of_nat (List.length repairs))%Z
  /\ (List.length (nodup string_dec (map system_key repairs)) <= 10 ->
      sum_counts rows = Z.of_nat (List.length repairs)).
Proof.
  intros F rows. unfold rows. rewrite barData_groups.
  destruct (repair_counts_facts repairs F) as (ND & K & C).
  set (counts := repair_counts repairs) in *.
  set (count := count_of counts) in *.
  pose proof (Array_sort_perm count (keys counts)) as P.
  set (groups := Array_sort _ _) in *.
  assert (NDg : NoDup groups)
    by (eapply Permutation_NoDup; [apply Permutation_sym, P | exact ND]).
  assert (T : total count groups = Z.of_nat (List.length repairs)).
  { rewrite (total_perm _ _ _ P).
    rewrite (total_ext _ _ _ C), total_count_occ.
    - now rewrite length_map.
    - exact ND.
    - intros x Hx. now apply K. }
  assert (O : forall k, In k groups -> (1 <= count k)%Z).
  { intros k Hk. apply (Permutation_in _ P) in Hk. apply K in Hk.
    rewrite C. apply (count_occ_In string_dec) in Hk. lia. }
  assert (G : repairs <> [] -> groups <> []).
  { intros NE E. destruct repairs as [|r repairs]; [congruence|].
    assert (I : In (system_key r) (keys counts)) by (apply K; now left).
    apply (Permutation_in _ (Permutation_sym P)) in I.
    rewrite E in I. destruct I. }
  assert (Lg : List.length groups
               = List.length (nodup string_dec (map system_key repairs))).
  { rewrite (Permutation_length P). apply Permutation_length.
    apply NoDup_Permutation; [exact ND | apply NoDup_nodup|].
    intros k. rewrite nodup_In. apply K. }
  destruct (bar_rows_bounds count groups NDg O) as (B1 & B2 & B3 & B4 & B5).
  rewrite <- T, <- Lg. repeat split; auto; lia.
Qed.

End ChartsMore.

Section Dashboard.
Context {NC : NumberConversions}.
Import ListFacts.

(** X12. The dashboard and the pie chart agree: the Working slice is the
    Working card, and the Under Repair slice is what is left of the
    Total card. *)
Theorem dashboard_agrees_with_pie (st : Store) :
  let cards := updateDashboardCards st in
  pieData (inventoryData st)
  = [Header "Status" "Count";
     Data "Working" (Z.of_nat (card_working cards));
     Data "Under Repair"
          (Z.of_nat (card_total cards - card_working cards))]
  /\ card_working cards <= card_total cards
  /\ card_repair cards <= List.length (repairsData st).
Proof.
  simpl.
  pose proof (filter_length_le is_working (inventoryData st)) as L.
  split; [|split; [exact L | apply filter_length_le]].
  unfold pieData. repeat f_equal. lia.
Qed.

Lemma num_add_nan_r x : num_add x S754_nan = S754_nan.
Proof. destruct x; reflexivity. Qed.

Lemma sum_from_nan (l : list record) :
  fold_left (fun s c => num_add s (quantity c)) l S754_nan = S754_nan.
Proof. induction l as [|c l IH]; simpl; [reflexivity | exact IH]. Qed.

Lemma sum_with_nan (l : list record) : forall s c,
  In c l -> is_nan (quantity c) = true ->
  fold_left (fun s c => num_add s (quantity c)) l s = S754_nan.
Proof.
  induction l as [|c0 l IH]; intros s c I N; [destruct I|].
  simpl. destruct I as [->|I].
  - destruct (quantity c); try discriminate N.
    rewrite num_add_nan_r. apply sum_from_nan.
  - now apply (IH _ c).
Qed.

(** X13. One consumable whose Quantity does not coerce to a number turns
    the Consumables card into NaN, whatever the other quantities are;
    consumables without a (truthy) Quantity count as zero. *)
Theorem consumables_card_edges (st : Store) :
  (forall c, In c (consumablesData st) -> is_nan (quantity c) = true ->
             card_consumables (updateDashboardCards st) = S754_nan)
  /\ ((forall c, In c (consumablesData st) ->
                 truthy (prop c "Quantity") = false) ->
      card_consumables (updateDashboardCards st) = zero).
Proof.
  split.
  - intros c I N. simpl. now apply (sum_with_nan _ _ c).
  - simpl. generalize (consumablesData st). intros l F.
    induction l as [|c l IH]; simpl; [reflexivity|].
    assert (Q : quantity c = zero).
    { unfold quantity, js_or. rewrite (F c (or_introl eq_refl)).
      reflexivity. }
    rewrite Q. simpl. apply IH. intros c' I. apply F. now right.
Qed.

End Dashboard.

(** ** Reload *)

Section Reload.
Context {NC : NumberConversions}.

Lemma run_loadAllData env n pg :
  run env n (loadAllData pg)
  = let answer i action :=
        match env i _ (Get action) with
        | Some v => v
        | None => Rows []
        end in
    let st := {| inventoryData :=
                   toObjects (or_empty (answer n "getInventory"));
                 repairsData :=
                   toObjects (or_empty (answer (S n) "getRepairs"));
                 consumablesData :=
                   toObjects (or_empty (answer (S (S n)) "getConsumables"));
                 issuedData :=
                   toObjects (or_empty (answer (S (S (S n))) "getIssued"))
              |} in
    ([Occ (Get "getInventory"); Occ (Get "getRepairs");
      Occ (Get "getConsumables"); Occ (Get "getIssued");
      Occ (UpdateDashboardCards st)],
     {| store := st; dom := dom pg |}).
Proof. reflexivity. Qed.

(** X14. A reload sends the four reads, in a fixed order, and nothing else;
    it shows no alert, writes none of the tables, hands the new
    datasets to the dashboard cards and replaces the four datasets by
    what the responses give, whatever they were before. *)
Theorem loadAllData_requests (env : browser) (n : nat) (pg : Page) :
  network_calls (fst (run env n (loadAllData pg))) = reload_requests
  /\ alerts (fst (run env n (loadAllData pg))) = []
  /\ dom (snd (run env n (loadAllData pg))) = dom pg
  /\ In (Occ (UpdateDashboardCards
                (store (snd (run env n (loadAllData pg))))))
        (fst (run env n (loadAllData pg)))
  /\ forall pg',
       store (snd (run env n (loadAllData pg')))
       = store (snd (run env n (loadAllData pg))).
Proof.
  split; [|split; [|split; [|split]]]; try intros pg';
    rewrite !run_loadAllData; try reflexivity.
  cbn [fst snd store]. do 4 right. left. reflexivity.
Qed.

(** X15. Each dataset after a reload comes from its own response alone: it
    is empty when the body is not JSON or is null, and the normalised
    rows otherwise; a failed read empties one dataset and does not
    touch the others. *)
Theorem loadAllData_datasets (env : browser) (n : nat) (pg : Page) :
  let loaded (a : option rows_arg) :=
      match a with
      | Some (Rows rows) => toObjects (Rows rows)
      | _ => []
      end in
  let st := store (snd (run env n (loadAllData pg))) in
  inventoryData st = loaded (env n _ (Get "getInventory"))
  /\ repairsData st = loaded (env (S n) _ (Get "getRepairs"))
  /\ consumablesData st = loaded (env (S (S n)) _ (Get "getConsumables"))
  /\ issuedData st = loaded (env (S (S (S n))) _ (Get "getIssued")).
Proof.
  cbv zeta. rewrite run_loadAllData. cbv zeta. cbn [snd store].
  cbn [inventoryData repairsData consumablesData issuedData].
  repeat split;
    match goal with
    | |- context [env ?i _ ?e] => destruct (env i _ e) as [[| |rows]|]
    end; reflexivity.
Qed.

End Reload.

(** ** Forms *)

Module FormFacts.
Import JsObject JsObjectFacts.

Lemma get_fold_unbound (entries : list (string * string)) :
  forall (o : record) k,
    (forall v, ~ In (k, v) entries) ->
    get k (fold_left (fun o kv => set (fst kv) (snd kv) o)
                     (map (fun kv => (fst kv, JStr (snd kv))) entries) o)
    = get k o.
Proof.
  induction entries as [|[k1 v1] entries IH]; intros o k U; simpl.
  - reflexivity.
  - rewrite IH by (intros v I; apply (U v); now right).
    rewrite get_set. destruct (String.eqb_spec k k1) as [->|]; [|reflexivity].
    exfalso. apply (U v1). now left.
Qed.

Lemma get_fold_last pre k v post : forall (o : record),
  (forall v', ~ In (k, v') post) ->
  get k (fold_left (fun o kv => set (fst kv) (snd kv) o)
                   (map (fun kv => (fst kv, JStr (snd kv)))
                        (pre ++ (k, v) :: post)%list) o)
  = Some (JStr v).
Proof.
  intros o U. rewrite map_app, fold_left_app. simpl.
  rewrite get_fold_unbound by exact U.
  now rewrite get_set, String.eqb_refl.
Qed.

Lemma keys_fold_entries (entries : list (string * string)) :
  forall (o : record) k,
    In k (keys (fold_left (fun o kv => set (fst kv) (snd kv) o)
                          (map (fun kv => (fst kv, JStr (snd kv))) entries)
                          o))
    <-> In k (map fst entries) \/ In k (keys o).
Proof.
  induction entries as [|[k1 v1] entries IH]; intros o k; simpl.
  - tauto.
  - rewrite IH, In_keys_set. intuition congruence.
Qed.

End FormFacts.

Section Forms.
Context {NC : NumberConversions}.
Import JsObject JsObjectFacts FormFacts.

Lemma form_object_unbound entries k :
  (forall v, ~ In (k, v) entries) -> prop (form_object entries) k = JUndefined.
Proof.
  intros U. unfold prop, form_object, fromEntries.
  now rewrite get_fold_unbound.
Qed.

(** X16. The object made from the entries of a form has one field per
    field name; where a name occurs more than once the last entry is
    kept, and a name without entry reads as undefined. *)
Theorem form_object_fields (entries : list (string * string)) :
  (forall k, In k (keys (form_object entries)) <-> In k (map fst entries))
  /\ NoDup (keys (form_object entries))
  /\ (forall k, (forall v, ~ In (k, v) entries) ->
                prop (form_object entries) k = JUndefined)
  /\ (forall pre k v post,
        entries = (pre ++ (k, v) :: post)%list ->
        (forall v', ~ In (k, v') post) ->
        prop (form_object entries) k = JStr v).
Proof.
  split; [|split; [|split]].
  - intros k. unfold form_object, fromEntries.
    rewrite keys_fold_entries. simpl. tauto.
  - unfold form_object, fromEntries.
    assert (G : forall (l : list (string * jsval)) (o : record),
               NoDup (keys o) ->
               NoDup (keys (fold_left (fun o kv => set (fst kv) (snd kv) o)
                                      l o))).
    { induction l as [|kv l IH]; intros o ND; simpl; [exact ND|].
      apply IH. now apply NoDup_keys_set. }
    apply G. constructor.
  - apply form_object_unbound.
  - intros pre k v post -> U. unfold prop, form_object, fromEntries.
    now rewrite get_fold_last.
Qed.

Lemma issue_rejects env entries pg :
  truthy (prop (form_object entries) "qty") = false ->
  run env 0 (issue_submit entries pg)
  = ([Occ PreventDefault; Occ (Alert "Invalid quantity")], pg).
Proof.
  intros F. unfold issue_submit, coerced_qty, js_or. rewrite F. reflexivity.
Qed.

(** X17. An issue form without a quantity field, or with an empty one, is
    rejected with the alert and sends nothing, whatever the conversion
    of strings to numbers is. *)
Theorem issue_requires_quantity (env : browser)
        (entries : list (string * string)) (pg : Page) :
  (forall v, ~ In ("qty", v) entries)
  \/ (exists pre post, entries = (pre ++ ("qty", EmptyString) :: post)%list
                       /\ forall v, ~ In ("qty", v) post) ->
  run env 0 (issue_submit entries pg)
  = ([Occ PreventDefault; Occ (Alert "Invalid quantity")], pg)
  /\ network_calls (trace env (issue_submit entries pg)) = [].
Proof.
  intros H.
  assert (F : truthy (prop (form_object entries) "qty") = false).
  { destruct H as [U|(pre & post & -> & U)].
    - now rewrite form_object_unbound.
    - unfold prop, form_object, fromEntries.
      now rewrite get_fold_last. }
  unfold trace. rewrite (issue_rejects env entries pg F).
  split; reflexivity.
Qed.

(** X18. An issue form whose quantity is accepted is posted once, with the
    quantity as a number in place of the text and every other field
    as entered; the reload follows and the only alert is the response. *)
Theorem issue_posts_number (env : browser)
        (entries : list (string * string)) (pg : Page) :
  num_le (coerced_qty (form_object entries)) zero = false ->
  let n := coerced_qty (form_object entries) in
  let obj := set "qty" (JNum n) (form_object entries) in
  network_calls (trace env (issue_submit entries pg))
  = POST (DataCommand "issueConsumable" obj) :: reload_requests
  /\ alerts (trace env (issue_submit entries pg))
     = [env 1 string (Post (DataCommand "issueConsumable" obj))]
  /\ prop obj "qty" = JNum n
  /\ (forall k, k <> "qty" -> prop obj k = prop (form_object entries) k)
  /\ (forall k, In k (keys obj)
                <-> k = "qty" \/ In k (map fst entries)).
Proof.
  intros A n obj.
  split; [|split; [|split; [|split]]].
  - unfold issue_submit. rewrite A. reflexivity.
  - unfold issue_submit. rewrite A. reflexivity.
  - unfold prop, obj. now rewrite get_set, String.eqb_refl.
  - intros k N. unfold prop, obj. rewrite get_set.
    destruct (String.eqb_spec k "qty"); [congruence | reflexivity].
  - intros k. unfold obj. rewrite In_keys_set.
    unfold form_object, fromEntries. rewrite keys_fold_entries.
    simpl. tauto.
Qed.




End Forms.

(** ** Page load *)

Section PageLoad.
Context {NC : NumberConversions}.
Import ListFacts DocumentFacts.


End PageLoad.

(** ** Bulk upload and attachments *)

Module SuffixFacts.
Import JsStringFacts.

Lemma endsWith_spec s t :
  endsWith s t = true <-> exists pre, s = pre ++ t.
Proof.
  induction s as [|c s IH].
  - cbn [endsWith]. rewrite orb_false_r, String.eqb_eq. split.
    + intros <-. now exists EmptyString.
    + intros [pre E]. destruct pre; [exact E | discriminate E].
  - cbn [endsWith]. rewrite orb_true_iff, String.eqb_eq, IH. split.
    + intros [<-|[pre ->]]; [now exists EmptyString|].
      now exists (String c pre).
    + intros [pre E]. destruct pre as [|c' pre]; simpl in E.
      * now left.
      * right. inversion E; subst. now exists pre.
Qed.

Lemma split_comma_head h rest :
  no_comma h = true ->
  split_comma (h ++ String comma rest) = h :: split_comma rest.
Proof.
  unfold no_comma. induction h as [|c h IH]; simpl; intros N.
  - reflexivity.
  - apply andb_prop in N. destruct N as [Nc Nh].
    apply negb_true_iff in Nc. rewrite Nc, (IH Nh). reflexivity.
Qed.

Lemma split_comma_whole s : no_comma s = true -> split_comma s = [s].
Proof.
  unfold no_comma. induction s as [|c s IH]; simpl; intros N.
  - reflexivity.
  - apply andb_prop in N. destruct N as [Nc Ns].
    apply negb_true_iff in Nc. rewrite Nc, (IH Ns). reflexivity.
Qed.

End SuffixFacts.

Section Uploads.
Context {NC : NumberConversions}.
Import SuffixFacts JsStringFacts.

(** X22. A click on the upload button without a file, or with a file whose
    name does not end with .csv in any letter case, alerts and does
    nothing else: the parser is not called and nothing is posted. A
    file whose name does end so goes to the parser, and the rows it
    delivers are posted in one command, after which the response is
    alerted and the datasets are reloaded. *)
Theorem bulkUpload_click_cases :
  bulkUpload_click None = BulkAlert "Select CSV or Excel file"
  /\ (forall f,
        ~ (exists stem, toLowerCase (file_name f) = stem ++ ".csv") ->
        bulkUpload_click (Some f)
        = BulkAlert
            "Please upload CSV. Excel support not included in this build.")
  /\ (forall f stem,
        toLowerCase (file_name f) = stem ++ ".csv" ->
        exists complete,
          bulkUpload_click (Some f) = BulkParse f complete
          /\ forall rows, exists k,
               complete rows = BulkPost "bulkInventory" rows k
               /\ forall env res pg,
                    network_calls (trace env (k res pg)) = reload_requests
                    /\ alerts (trace env (k res pg)) = [res]).
Proof.
  split; [reflexivity|]. split.
  - intros f N. unfold bulkUpload_click.
    destruct (endsWith (toLowerCase (file_name f)) ".csv") eqn:E;
      [|reflexivity].
    apply endsWith_spec in E. contradiction.
  - intros f stem E. unfold bulkUpload_click.
    assert (W : endsWith (toLowerCase (file_name f)) ".csv" = true)
      by (apply endsWith_spec; eauto).
    rewrite W. eexists. split; [reflexivity|].
    intros rows. eexists. split; [reflexivity|].
    intros env res pg. split; reflexivity.
Qed.

(** X23. For a data URL made of a header, a comma and a body, none of which
    holds a further comma, the reader resolves with the body; without
    a comma it resolves with nothing. An empty body, like no body,
    leaves the submission without invoice. *)
Theorem fileToBase64_result_body (header body : string) :
  no_comma header = true -> no_comma body = true ->
  fileToBase64_result (header ++ String comma body) = Some body
  /\ fileToBase64_result header = None
  /\ (forall f, invoice_of (Some f)
                  (fileToBase64_result (header ++ String comma EmptyString))
                = None)
  /\ (forall f, invoice_of (Some f) (fileToBase64_result header) = None)
  /\ (forall f, body <> EmptyString ->
        invoice_of (Some f)
                   (fileToBase64_result (header ++ String comma body))
        = Some {| name := file_name f; b64 := body |}).
Proof.
  intros H B. unfold fileToBase64_result.
  rewrite !(split_comma_head header) by exact H.
  rewrite (split_comma_whole body B), (split_comma_whole header H).
  repeat split.
  intros f N. simpl.
  destruct (String.eqb_spec body EmptyString); [congruence | reflexivity].
Qed.

End Uploads.

(** ** The service worker *)

Module ServiceWorkerFacts.
Import JsObject JsObjectFacts ServiceWorker.

Lemma get_append (k : url) (v : response) u : forall o : cache,
  get k o = None ->
  get u (o ++ [(k, v)])%list
  = if String.eqb u k then Some v else get u o.
Proof.
  induction o as [|[k1 v1] o IH]; simpl; intros Ek.
  - reflexivity.
  - destruct (String.eqb_spec k k1) as [->|]; [discriminate|].
    rewrite (IH Ek).
    destruct (String.eqb_spec u k1) as [->|]; [|reflexivity].
    destruct (String.eqb_spec k1 k); [congruence | reflexivity].
Qed.

Lemma get_put c entry u :
  get u (put c entry)
  = if String.eqb u (fst entry) then Some (snd entry) else get u c.
Proof.
  destruct entry as [k v]. unfold put. cbn [fst snd].
  destruct (has k c) eqn:E.
  - rewrite get_update, E. reflexivity.
  - apply has_false in E. apply get_None in E. now apply get_append.
Qed.

Lemma get_fold_put entries : forall c u,
  ~ In u (map fst entries) -> get u (fold_left put entries c) = get u c.
Proof.
  induction entries as [|[k v] entries IH]; intros c u N; simpl.
  - reflexivity.
  - rewrite IH by (intros I; apply N; now right).
    rewrite get_put. cbn [fst snd].
    destruct (String.eqb_spec u k) as [->|]; [|reflexivity].
    exfalso. apply N. now left.
Qed.

Lemma get_fold_put_in entries : forall c u r,
  NoDup (map fst entries) -> In (u, r) entries ->
  get u (fold_left put entries c) = Some r.
Proof.
  induction entries as [|e entries IH]; intros c u r ND I; [destruct I|].
  simpl in ND. inversion ND as [|? ? Hn ND']; subst.
  simpl. destruct I as [->|I].
  - rewrite get_fold_put by exact Hn.
    rewrite get_put. simpl. now rewrite String.eqb_refl.
  - now apply IH.
Qed.

Lemma fetch_all_spec net urls entries :
  fetch_all net urls = Some entries ->
  map fst entries = urls
  /\ forall u, In u urls -> exists r, net u = Some r /\ In (u, r) entries.
Proof.
  revert entries. induction urls as [|u urls IH]; intros entries E.
  - inversion E; subst. split; [reflexivity | intros u []].
  - simpl in E. destruct (net u) as [r|] eqn:N; [|discriminate].
    destruct (fetch_all net urls) as [rs|]; [|discriminate].
    inversion E; subst. destruct (IH rs eq_refl) as [M I].
    split; [simpl; now rewrite M|].
    intros u' [<-|Hu'].
    + exists r. split; [exact N | now left].
    + destruct (I u' Hu') as (r' & N' & I'). exists r'.
      split; [exact N' | now right].
Qed.

Lemma fetch_all_fails net urls u :
  In u urls -> net u = None -> fetch_all net urls = None.
Proof.
  induction urls as [|u0 urls IH]; intros I N; [destruct I|].
  simpl. destruct I as [->|I].
  - now rewrite N.
  - rewrite (IH I N). now destruct (net u0).
Qed.

Lemma fetch_all_succeeds net urls :
  (forall u, In u urls -> net u <> None) ->
  exists entries, fetch_all net urls = Some entries.
Proof.
  induction urls as [|u urls IH]; intros A; simpl; [eauto|].
  destruct (net u) as [r|] eqn:N.
  - destruct IH as [rs ->]; [intros u' I; apply A; now right|]. eauto.
  - exfalso. apply (A u); [now left | exact N].
Qed.

Lemma ASSETS_distinct : NoDup ASSETS.
Proof.
  unfold ASSETS. repeat constructor; simpl; intros H;
    repeat (destruct H as [H|H]; [discriminate H|]); exact H.
Qed.

(** X24. Once the worker is installed, each of the four shell assets is
    answered from the cache, with the response the network gave at
    installation, and without asking the network again: whatever the
    network answers later, or if it answers at all, makes no
    difference. Entries for other URLs are kept as they were. *)
Theorem installed_assets_are_served_offline (net : network) (c c' : cache) :
  install net c = (c', true) ->
  (forall a, In a ASSETS ->
     exists r, net a = Some r
               /\ forall later : network, on_fetch c' later a = FromCache r)
  /\ (forall u, ~ In u ASSETS -> get u c' = get u c).
Proof.
  unfold install, addAll.
  destruct (fetch_all net ASSETS) as [entries|] eqn:F; [|discriminate].
  intros E. inversion E; subst. clear E.
  destruct (fetch_all_spec _ _ _ F) as [M I]. split.
  - intros a Ha. destruct (I a Ha) as (r & N & Hr).
    exists r. split; [exact N|]. intros later. unfold on_fetch.
    rewrite (get_fold_put_in entries c a r); [reflexivity| |exact Hr].
    pose proof ASSETS_distinct as D. rewrite <- M in D. exact D.
  - intros u Hu. apply get_fold_put. intros J. apply Hu.
    rewrite <- M. exact J.
Qed.

(** X25. Installation is all or nothing: it succeeds exactly when the
    network delivers every shell asset, and when one of them fails the
    cache is left as it was. *)
Theorem install_all_or_nothing (net : network) (c : cache) :
  (snd (install net c) = true <-> forall a, In a ASSETS -> net a <> None)
  /\ (forall a, In a ASSETS -> net a = None -> install net c = (c, false)).
Proof.
  split; [split|].
  - unfold install, addAll.
    destruct (fetch_all net ASSETS) as [entries|] eqn:F; [|discriminate].
    intros _ a Ha. destruct (fetch_all_spec _ _ _ F) as [_ I].
    destruct (I a Ha) as (r & N & _). congruence.
  - intros A. unfold install, addAll.
    destruct (fetch_all_succeeds net ASSETS A) as [entries ->]. reflexivity.
  - intros a Ha N. unfold install, addAll.
    now rewrite (fetch_all_fails net ASSETS a Ha N).
Qed.

End ServiceWorkerFacts.

(** ** Export of what was loaded *)

Section ExportMore.
Context {NC : NumberConversions}.
Import JsObject JsObjectFacts CsvReader CsvText CsvFacts ListFacts.

Lemma csv_line_set_other headers k v r :
  ~ In k headers -> csv_line headers (set k v r) = csv_line headers r.
Proof.
  intros N. unfold csv_line. f_equal. apply map_ext_in. intros h Hh.
  unfold prop. rewrite get_set.
  destruct (String.eqb_spec h k) as [->|]; [contradiction | reflexivity].
Qed.

(** X26. The export has the columns of the first record only: a field that
    a later record holds under a key the first record lacks is never
    written, so adding or changing such a field leaves the file as it
    was. *)
Theorem csv_ignores_other_keys (r0 : record) (before after : list record)
        (r : record) (k : string) (v : jsval) :
  ~ In k (keys r0) ->
  csv_text r0 (before ++ set k v r :: after)%list
  = csv_text r0 (before ++ r :: after)%list.
Proof.
  intros N. unfold csv_text. do 2 f_equal.
  rewrite !map_cons, !map_app, !map_cons.
  now rewrite (csv_line_set_other _ k v r N).
Qed.

Lemma map_by_index {B : Type} (F : string -> B) (G : nat -> B) hs :
  forall s,
    (forall j h, nth_error hs j = Some h -> F h = G (s + j)) ->
    map F hs = map G (seq s (List.length hs)).
Proof.
  induction hs as [|h hs IH]; intros s E; simpl; [reflexivity|].
  f_equal.
  - rewrite (E 0 h eq_refl). now rewrite Nat.add_0_r.
  - apply IH. intros j h' Hj. rewrite (E (S j) h' Hj).
    now rewrite Nat.add_succ_r.
Qed.

(** X27. What comes from the gateway goes out in the export: for a header
    row of distinct names that can stand unquoted (and are neither
    array indices nor [__proto__]), reading back the export of the
    normalised rows gives, for every data row, the header names in
    order, each with the text of the cell in its column, and the empty
    text where the cell is missing or falsy. *)
Theorem loaded_rows_round_trip (row0 row1 : list jsval)
        (more : list (list jsval)) :
  let hs := header_names row0 in
  hs <> [] ->
  NoDup hs ->
  ~ In "__proto__" hs ->
  Forall (fun h => plain_key h = true) hs ->
  Forall (fun h => array_index h = None) hs ->
  exists r0 rest,
    toObjects (Rows (row0 :: row1 :: more)) = r0 :: rest
    /\ read false (csv_text r0 rest)
       = map (fun row =>
                combine hs
                  (map (fun j => csv_value (cell_or_empty row j))
                       (seq 0 (List.length hs))))
             (row1 :: more).
Proof.
  intros hs NE ND NP P A.
  set (made := fun row => own (fill_record hs 0 row empty_object)).
  exists (made row1), (map made more).
  split; [reflexivity|].
  assert (ND' : NoDup (hs ++ keys (own empty_object))%list)
    by (simpl; now rewrite app_nil_r).
  assert (K : forall row, keys (made row) = hs).
  { intros row. unfold made.
    now rewrite (fill_record_in_order hs 0 row empty_object NP ND' A). }
  rewrite (read_rows false _ hs
             (map (fun r => map (fun h => csv_value (prop r h)) hs)
                  (made row1 :: map made more))).
  - rewrite <- (map_cons made row1 more).
    rewrite !map_map. apply map_ext. intros row. f_equal.
    apply map_by_index. intros j h Hj. unfold prop, made.
    assert (N : h <> "__proto__").
    { intros ->. apply NP. eapply nth_error_In. exact Hj. }
    now rewrite (fill_record_get hs 0 row empty_object j h N ND Hj).
  - rewrite parse_csv_text; rewrite K; auto.
  - discriminate.
Qed.

End ExportMore.

(** ** Order of the bars, and what a submission refreshes *)

Section Ties.
Context {NC : NumberConversions}.
Import JsObject JsObjectFacts.

Lemma sort_insert_stable {A : Type} (m : A -> Z) (c : Z) x l :
  filter (fun k => (m k =? c)%Z)
         (sort_insert (fun a b => (m b - m a)%Z) x l)
  = if (m x =? c)%Z then x :: filter (fun k => (m k =? c)%Z) l
    else filter (fun k => (m k =? c)%Z) l.
Proof.
  induction l as [|y l IH]; simpl.
  - destruct (m x =? c)%Z; reflexivity.
  - destruct (Z.leb_spec (m y - m x) 0) as [L|L]; simpl.
    + destruct (m x =? c)%Z; reflexivity.
    + rewrite IH. destruct (Z.eqb_spec (m y) c) as [Ey|Ey];
        destruct (Z.eqb_spec (m x) c) as [Ex|Ex]; try reflexivity.
      lia.
Qed.

Lemma Array_sort_stable {A : Type} (m : A -> Z) (c : Z) l :
  filter (fun k => (m k =? c)%Z)
         (Array_sort (fun a b => (m b - m a)%Z) l)
  = filter (fun k => (m k =? c)%Z) l.
Proof.
  induction l as [|x l IH]; simpl; [reflexivity|].
  rewrite sort_insert_stable, IH. reflexivity.
Qed.

Lemma has_existsb {A : Type} k (o : object A) :
  has k o = existsb (String.eqb k) (keys o).
Proof.
  unfold has. induction o as [|[k1 v1] o IH]; simpl; [reflexivity|].
  destruct (String.eqb k k1); [reflexivity | exact IH].
Qed.

Lemma keys_tally counts r :
  system_key r <> "__proto__" ->
  array_index (system_key r) = None ->
  keys (tally counts r)
  = if existsb (String.eqb (system_key r)) (keys counts) then keys counts
    else (keys counts ++ [system_key r])%list.
Proof.
  intros N E. rewrite tally_ordinary by exact N.
  unfold set. rewrite <- has_existsb.
  destruct (has (system_key r) counts).
  - apply keys_update.
  - rewrite (insert_last _ _ _ E). unfold keys. now rewrite map_app.
Qed.

Lemma keys_fold_first_seen repairs : forall counts,
  Forall (fun r => system_key r <> "__proto__") repairs ->
  Forall (fun r => array_index (system_key r) = None) repairs ->
  keys (fold_left tally repairs counts)
  = fold_left (fun seen k => if existsb (String.eqb k) seen then seen
                             else (seen ++ [k])%list)
              (map system_key repairs) (keys counts).
Proof.
  induction repairs as [|r repairs IH]; intros counts P F; simpl.
  - reflexivity.
  - inversion P as [|? ? Pr P']; subst.
    inversion F as [|? ? Fr F']; subst.
    rewrite (IH _ P' F'), (keys_tally counts r Pr Fr). reflexivity.
Qed.

(** X28. When no system identifier is the name of a member of
    [Object.prototype], bars of equal height keep the order in which
    [Object.keys] lists their systems, which for identifiers that are
    not array indices is the order in which the systems first occur in
    the repairs data: together with the descending order this fixes
    the chart. *)
Theorem bar_chart_order_of_ties (repairs : list record) :
  Forall (fun r => inherited_name (system_key r) = false) repairs ->
  let counts := repair_counts repairs in
  let count := count_of counts in
  exists groups,
    barData repairs
    = Header "System" "Repairs"
      :: match groups with
         | [] => [Data "None" 0%Z]
         | _ :: _ => map (fun k => Data k (count k)) (firstn 10 groups)
         end
    /\ (forall c, filter (fun k => (count k =? c)%Z) groups
                  = filter (fun k => (count k =? c)%Z) (keys counts))
    /\ (forall k, count k
                  = Z.of_nat (count_occ string_dec
                                        (map system_key repairs) k))
    /\ (Forall (fun r => array_index (system_key r) = None) repairs ->
        keys counts = first_seen (map system_key repairs)).
Proof.
  intros H counts count.
  exists (Array_sort (fun a b => (count b - count a)%Z) (keys counts)).
  split; [apply barData_groups|]. split; [|split].
  - intros c. apply Array_sort_stable.
  - intros k. unfold count, counts, repair_counts.
    rewrite count_of_fold by now apply no_inherited_no_proto.
    reflexivity.
  - intros F. unfold counts, repair_counts.
    now rewrite (keys_fold_first_seen repairs []
                   (no_inherited_no_proto _ H) F).
Qed.

End Ties.

Section Refresh.
Context {NC : NumberConversions}.
Import ListFacts DocumentFacts.












End Refresh.

(* ================================================================= *)
(** * The theorems at concrete inputs *)

#[local] Existing Instance IntegerConversions.conversions.

Ltac distinct_strings :=
  repeat constructor; cbv; intros H;
  repeat match goal with
         | H : _ \/ _ |- _ => destruct H
         | H : False |- _ => destruct H
         | H : _ = _ |- _ => discriminate H
         end.

(** The primitives on small inputs. *)
Example trim_header : trim "  System Number  " = "System Number".
Proof. reflexivity. Qed.

Example toLowerCase_header : toLowerCase "Invoice Link" = "invoice link".
Proof. reflexivity. Qed.

Example includes_is_case_sensitive :
  includes "Working" "work" = false
  /\ includes (toLowerCase "Working") "work" = true.
Proof. split; reflexivity. Qed.

(** Array-index keys are enumerated first, in ascending order. *)
Example keys_order :
  JsObject.keys
    (own (fill_record ["b"; "10"; "2"; "a"; "02"] 0 [] empty_object))
  = ["2"; "10"; "b"; "a"; "02"].
Proof. reflexivity. Qed.

(** A column named [__proto__] gives no key: its cell goes to the
    inherited setter. *)
Example toObjects_proto_header :
  toObjects (Rows [[JStr "__proto__"; JStr "a"]; [JStr "x"; JStr "y"]])
  = [[("a", JStr "y")]].
Proof. reflexivity. Qed.

(** After a [null] in such a column the object has no prototype, and a
    second column of that name becomes an own property: the records of
    one dataset then differ in their keys. *)
Example toObjects_proto_after_null :
  toObjects (Rows [[JStr "__proto__"; JStr "__proto__"];
                   [JNull; JStr "x"]; [JStr "a"; JStr "b"]])
  = [[("__proto__", JStr "x")]; []].
Proof. reflexivity. Qed.

(** Groups with equal counts keep the order of [Object.keys]. *)
Example bar_chart_ties :
  barData [[("System Number", JStr "B")]; [("System Number", JStr "C")];
           [("System Number", JStr "A")]; [("System Number", JStr "C")]]
  = [Header "System" "Repairs"; Data "C" 2; Data "B" 1; Data "A" 1].
Proof. reflexivity. Qed.

Example escapeHtml_markup :
  escapeHtml (JStr "<a href='x'>R&D</a>")
  = "&lt;a href=&#39;x&#39;&gt;R&amp;D&lt;/a&gt;".
Proof. reflexivity. Qed.

(** A header row with padded names, and a data row one cell short. *)
Lemma toObjects_records_witness :
  exists r,
    nth_error
      (toObjects (Rows [[JStr " id "; JStr "name"];
                        [JNum (IntegerConversions.of_integer 7)]])) 0
    = Some r
    /\ JsObject.keys r = ["id"; "name"]
    /\ prop r "id" = JNum (IntegerConversions.of_integer 7)
    /\ prop r "name" = JStr EmptyString.
Proof.
  assert (P : ~ In "__proto__" (header_names [JStr " id "; JStr "name"])).
  { cbv. intros [H|[H|[]]]; discriminate H. }
  destruct (proj2 (toObjects_records
                     [JStr " id "; JStr "name"]
                     [[JNum (IntegerConversions.of_integer 7)]])
                  P 0 [JNum (IntegerConversions.of_integer 7)] eq_refl)
    as (r & E & _ & _ & F).
  assert (ND : NoDup (header_names [JStr " id "; JStr "name"]))
    by distinct_strings.
  destruct (F ND) as (_ & _ & O & V).
  exists r. split; [exact E|]. split.
  { apply O. repeat constructor. }
  split.
  - apply (proj1 (V 0 "id" eq_refl) _ eq_refl). discriminate.
  - apply (proj2 (V 1 "name" eq_refl)). simpl. lia.
Defined.

Lemma table_filtering_witness :
  matches_query "dell" [("Model", JStr "DELL Optiplex")] = true
  /\ innerHTML "inventoryTableWrap"
       (renderInventoryTable "dell" empty_page)
     = Some (table_html linked_table_cell inventory_headers []).
Proof.
  destruct (table_filtering "dell") as (M & _ & R). split.
  - apply M. right. exists (JStr "DELL Optiplex"). split; [now left|].
    exists EmptyString, " optiplex". reflexivity.
  - destruct (R empty_page) as (_ & _ & I & _).
    exact (I EmptyString eq_refl).
Defined.

Lemma pie_counts_witness :
  pieData [[("Condition", JStr "Working")];
           [("Condition", JStr "under repair")];
           [("Condition", JStr "WORKING")]]
  = [Header "Status" "Count"; Data "Working" 2; Data "Under Repair" 1]
  /\ condition_mentions_work [("Condition", JStr "WORKING")] = true.
Proof.
  split.
  - exact (proj1 (pie_counts [[("Condition", JStr "Working")];
                              [("Condition", JStr "under repair")];
                              [("Condition", JStr "WORKING")]])).
  - apply (proj1 (proj2 (proj2 (pie_counts [])))).
    exists EmptyString, "ing". reflexivity.
Defined.

Lemma bar_chart_witness :
  system_key [("sys", JStr "A")] = "Unknown"
  /\ system_key [("System Number", JStr EmptyString);
                 ("systemNumber", JStr "A")] = "A"
  /\ count_of (repair_counts [[("System Number", JStr "A")];
                              [("systemNumber", JStr "B")];
                              [("System Number", JStr "A")]]) "A" = 2%Z
  /\ (In "B" (JsObject.keys
                (repair_counts [[("System Number", JStr "A")];
                                [("systemNumber", JStr "B")];
                                [("System Number", JStr "A")]]))).
Proof.
  destruct (bar_chart [[("System Number", JStr "A")];
                       [("systemNumber", JStr "B")];
                       [("System Number", JStr "A")]]) as (K & _ & G & _).
  destruct G as (I & C & _); [repeat constructor|].
  split; [|split; [|split]].
  - exact (proj2 (proj2 (K [("sys", JStr "A")])) eq_refl eq_refl).
  - exact (proj1 (proj2 (K [("System Number", JStr EmptyString);
                            ("systemNumber", JStr "A")]))
                 eq_refl eq_refl).
  - exact (C "A").
  - apply I. right. left. reflexivity.
Defined.

Lemma cells_escaped_witness :
  linked_table_cell "Model" (JStr "<b>")
  = "<td>" ++ escapeHtml (JStr "<b>") ++ "</td>"
  /\ linked_table_cell "Invoice Link" (JStr "http://host/a?b=<1>")
     = "<td><a href=" ++ quoted "http://host/a?b=<1>" ++ " target="
       ++ quoted "_blank" ++ ">Invoice</a></td>"
  /\ innerHTML "issuedTableWrap" (renderIssuedTable empty_page)
     = Some (table_html plain_table_cell issued_headers [])
  /\ count_special
       (table_html linked_table_cell ["Model"; "Invoice Link"]
                   [[("Model", JStr "<script>alert('x')</script>")]])
     = count_special (table_open ["Model"; "Invoice Link"]) + 1 * (4 + 4 * 2)
       + 4.
Proof.
  destruct cells_escaped as (E & L & _ & _ & _ & T & _ & _ & _ & C).
  split; [|split; [|split]].
  - apply E. left. discriminate.
  - exact (L (JStr "http://host/a?b=<1>") eq_refl).
  - destruct (T empty_page EmptyString) as (_ & _ & _ & I).
    exact (I eq_refl).
  - apply (C ["Model"; "Invoice Link"]
             [[("Model", JStr "<script>alert('x')</script>")]]).
    intros r [<-|[]]. reflexivity.
Defined.

Lemma cell_value_choice_witness :
  cell_value [("Notes", JNum zero)] "Notes" = cell_value [] "Notes"
  /\ linked_table_cell "Notes" (cell_value [("Notes", JNum zero)] "Notes")
     = linked_table_cell "Notes" (cell_value [] "Notes").
Proof.
  exact (proj1 (proj2 (cell_value_choice [("Notes", JNum zero)] "Notes"))
               [] eq_refl eq_refl eq_refl).
Defined.

Lemma invalid_submissions_abort_witness :
  network_calls
    (trace quiet_browser
       (addInventory_submit [("Model", "X1")]
          (Some {| file_name := "scan.png"; file_type := "image/png" |})
          empty_page)) = []
  /\ run quiet_browser 0
       (issue_submit [("item", "pen"); ("qty", "-3")] empty_page)
     = ([Occ PreventDefault; Occ (Alert "Invalid quantity")], empty_page).
Proof.
  destruct (invalid_submissions_abort quiet_browser [("Model", "X1")]
              empty_page) as [F _].
  destruct (invalid_submissions_abort quiet_browser
              [("item", "pen"); ("qty", "-3")] empty_page) as [_ Q].
  split.
  - apply (F {| file_name := "scan.png"; file_type := "image/png" |}).
    simpl. discriminate.
  - apply Q. right. reflexivity.
Defined.

Lemma nan_quantity_is_posted_witness :
  is_nan (coerced_qty (form_object [("item", "pen"); ("qty", "abc")])) = true
  /\ network_calls
       (trace quiet_browser
          (issue_submit [("item", "pen"); ("qty", "abc")] empty_page))
     = [POST (DataCommand "issueConsumable"
                [("item", JStr "pen"); ("qty", JNum S754_nan)]);
        GET "getInventory"; GET "getRepairs"; GET "getConsumables";
        GET "getIssued"].
Proof.
  split; [reflexivity|].
  exact (proj1 (proj2 (nan_quantity_is_posted quiet_browser
                         [("item", "pen"); ("qty", "abc")] empty_page
                         eq_refl))).
Defined.


(* ================================================================= *)
(** * Where the specification and the script part *)

(** C1, as stated, fails: a header name that occurs twice gives one key,
    under which the last of the two cells is kept. *)
Lemma toObjects_repeated_header :
  toObjects (Rows [[JStr "a"; JStr "a"]; [JStr "1"; JStr "2"]])
  = [[("a", JStr "2")]]
  /\ ~ Forall (fun r => List.length (JsObject.keys r)
                        = List.length [JStr "a"; JStr "a"])
              (toObjects (Rows [[JStr "a"; JStr "a"];
                                [JStr "1"; JStr "2"]])).
Proof.
  split; [reflexivity|].
  intros F. inversion F as [|r l E F']. discriminate E.
Qed.

(** C6, as stated, fails: a repair whose system identifier is
    [__proto__] is counted in no group, so that a dataset of such
    repairs is charted by the placeholder row. *)
Lemma bar_chart_prototype_identifier :
  map system_key [[("System Number", JStr "__proto__")]] = ["__proto__"]
  /\ barData [[("System Number", JStr "__proto__")]]
     = [Header "System" "Repairs"; Data "None" 0]
  /\ ~ (forall k,
          In k (JsObject.keys
                  (repair_counts [[("System Number", JStr "__proto__")]]))
          <-> In k (map system_key [[("System Number", JStr "__proto__")]]))
  /\ count_of (repair_counts [[("System Number", JStr "__proto__")]])
              "__proto__"
     <> Z.of_nat
          (count_occ string_dec
             (map system_key [[("System Number", JStr "__proto__")]])
             "__proto__").
Proof.
  split; [reflexivity|]. split; [reflexivity|]. split.
  - intros G. destruct (proj2 (G "__proto__")). now left.
  - discriminate.
Qed.


(** The header line is written without quotes: a key holding a comma is
    read back as two column names. *)
Lemma csv_key_with_comma :
  CsvReader.read false (csv_text [("a,b", JStr "x")] []) = [[("a", "x")]].
Proof. reflexivity. Qed.

(* ================================================================= *)
(** * The further properties at concrete inputs *)

Lemma toObjects_uniform_keys_witness :
  JsObject.keys [("id", JStr "7"); ("name", JStr EmptyString)]
  = JsObject.keys [("id", JStr "8"); ("name", JStr "pen")].
Proof.
  apply (proj1 (toObjects_uniform_keys
                  (Rows [[JStr "id"; JStr "__proto__"; JStr "name"];
                         [JStr "7"; JNull];
                         [JStr "8"; JStr "x"; JStr "pen"]])
                  (fun row0 data E =>
                     match E in _ = y
                           return match y with
                                  | Rows (r :: _) =>
                                      count_occ string_dec (header_names r)
                                                "__proto__" <= 1
                                  | _ => True
                                  end
                     with eq_refl => le_n 1 end))).
  - left. reflexivity.
  - right. left. reflexivity.
Defined.

Lemma toObjects_last_column_wins_witness :
  exists r,
    nth_error (toObjects (Rows [[JStr "a"; JStr "a"]; [JStr "1"; JStr "2"]]))
              0 = Some r
    /\ prop r "a" = cell_or_empty [JStr "1"; JStr "2"] 1.
Proof.
  apply (toObjects_last_column_wins [JStr "a"; JStr "a"]
           [[JStr "1"; JStr "2"]] 0 1 [JStr "1"; JStr "2"] "a").
  - discriminate.
  - reflexivity.
  - reflexivity.
  - intros j' L. destruct j' as [|[|[|j']]]; try lia; discriminate.
Defined.

Lemma search_ignores_query_case_witness :
  renderInventoryTable "DELL" empty_page
  = renderInventoryTable "dell" empty_page.
Proof.
  exact (proj1 (proj2 (search_ignores_query_case "DELL" "dell" eq_refl)
                      empty_page)).
Defined.

Lemma search_narrows_witness :
  matches_query "opti" [("Model", JStr "DELL Optiplex")] = true.
Proof.
  apply (proj1 (search_narrows "dell " "opti" "plex")). reflexivity.
Defined.

Lemma renderers_independent_witness :
  innerHTML "repairsTableWrap" (renderInventoryTable "x" empty_page)
  = innerHTML "repairsTableWrap" empty_page.
Proof.
  apply (proj1 (renderers_independent "x" "y" empty_page)). discriminate.
Defined.

Lemma globalSearch_input_effect_witness :
  innerHTML "inventoryTableWrap" (globalSearch_input "Dell" empty_page)
  = Some (table_html linked_table_cell inventory_headers
            (filter (matches_query "Dell")
                    (inventoryData (store empty_page)))).
Proof.
  exact (proj2 (proj2 (proj2 (globalSearch_input_effect "Dell" empty_page)))
               EmptyString eq_refl).
Defined.

Lemma escapeHtml_plain_text_witness :
  escapeHtml (JStr "Dell Optiplex 7090") = "Dell Optiplex 7090".
Proof. apply escapeHtml_plain_text. reflexivity. Defined.

Lemma escapeHtml_injective_witness : "a<b" = "a<b".
Proof. apply escapeHtml_injective. reflexivity. Defined.

Lemma bar_chart_bounds_witness :
  sum_counts (barData [[("System Number", JStr "A")];
                       [("System Number", JStr "B")];
                       [("System Number", JStr "A")]]) = 3%Z.
Proof.
  apply (proj2 (proj2 (proj2 (proj2 (proj2
           (bar_chart_bounds [[("System Number", JStr "A")];
                              [("System Number", JStr "B")];
                              [("System Number", JStr "A")]]
                             ltac:(repeat constructor))))))).
  simpl. lia.
Defined.

Lemma consumables_card_edges_witness :
  card_consumables
    (updateDashboardCards
       {| inventoryData := []; repairsData := [];
          consumablesData := [[("Quantity", JStr "4")];
                              [("Quantity", JStr "n/a")]];
          issuedData := [] |}) = S754_nan.
Proof.
  apply (proj1 (consumables_card_edges _) [("Quantity", JStr "n/a")]).
  - right. left. reflexivity.
  - reflexivity.
Defined.

Lemma form_object_fields_witness :
  prop (form_object [("qty", "1"); ("item", "pen"); ("qty", "2")]) "qty"
  = JStr "2".
Proof.
  apply (proj2 (proj2 (proj2 (form_object_fields
           [("qty", "1"); ("item", "pen"); ("qty", "2")])))
           [("qty", "1"); ("item", "pen")] "qty" "2" [] eq_refl).
  intros v' [].
Defined.

Lemma issue_requires_quantity_witness :
  run quiet_browser 0 (issue_submit [("item", "pen")] empty_page)
  = ([Occ PreventDefault; Occ (Alert "Invalid quantity")], empty_page).
Proof.
  apply (issue_requires_quantity quiet_browser [("item", "pen")] empty_page).
  left. intros v [E|[]]. discriminate E.
Defined.

Lemma issue_posts_number_witness :
  network_calls
    (trace quiet_browser
       (issue_submit [("item", "pen"); ("qty", "5")] empty_page))
  = POST (DataCommand "issueConsumable"
            [("item", JStr "pen");
             ("qty", JNum (IntegerConversions.of_integer 5))])
    :: reload_requests.
Proof.
  exact (proj1 (issue_posts_number quiet_browser
                  [("item", "pen"); ("qty", "5")] empty_page eq_refl)).
Defined.



Lemma bulkUpload_click_cases_witness :
  (exists complete,
     bulkUpload_click (Some {| file_name := "STOCK.CSV";
                               file_type := "text/csv" |})
     = BulkParse {| file_name := "STOCK.CSV"; file_type := "text/csv" |}
                 complete)
  /\ bulkUpload_click (Some {| file_name := "stock.xlsx";
                               file_type := EmptyString |})
     = BulkAlert "Please upload CSV. Excel support not included in this build.".
Proof.
  destruct bulkUpload_click_cases as (_ & N & Y). split.
  - destruct (Y {| file_name := "STOCK.CSV"; file_type := "text/csv" |}
                "stock" eq_refl) as (complete & E & _).
    exists complete. exact E.
  - apply N. intros H. apply SuffixFacts.endsWith_spec in H.
    vm_compute in H. discriminate H.
Defined.

Lemma fileToBase64_result_body_witness :
  fileToBase64_result "data:application/pdf;base64,JVBERi0x" = Some "JVBERi0x".
Proof.
  exact (proj1 (fileToBase64_result_body "data:application/pdf;base64"
                  "JVBERi0x" eq_refl eq_refl)).
Defined.

Lemma installed_assets_are_served_offline_witness :
  ServiceWorker.on_fetch
    (fst (ServiceWorker.install (fun u => Some ("body of " ++ u)) []))
    (fun _ => None) "/style.css"
  = ServiceWorker.FromCache "body of /style.css".
Proof.
  destruct (ServiceWorkerFacts.installed_assets_are_served_offline
              (fun u => Some ("body of " ++ u)) []
              (fst (ServiceWorker.install
                      (fun u => Some ("body of " ++ u)) []))
              eq_refl) as [S _].
  destruct (S "/style.css") as (r & N & F).
  - right. right. left. reflexivity.
  - inversion N; subst. apply F.
Defined.

Lemma install_all_or_nothing_witness :
  ServiceWorker.install
    (fun u => if String.eqb u "/script.js" then None else Some u)
    [("/old", "x")]
  = ([("/old", "x")], false).
Proof.
  apply (proj2 (ServiceWorkerFacts.install_all_or_nothing _ _) "/script.js").
  - right. right. right. left. reflexivity.
  - reflexivity.
Defined.

Lemma csv_ignores_other_keys_witness :
  csv_text [("a", JStr "1")] [[("a", JStr "2"); ("b", JStr "lost")]]
  = csv_text [("a", JStr "1")] [[("a", JStr "2")]].
Proof.
  apply (csv_ignores_other_keys [("a", JStr "1")] [] []
           [("a", JStr "2")] "b" (JStr "lost")).
  intros [E|[]]. discriminate E.
Defined.

Lemma loaded_rows_round_trip_witness :
  exists r0 rest,
    toObjects (Rows [[JStr "Item"; JStr "Qty"];
                     [JStr "pen, blue"; JNum zero]; [JStr "ink"]])
    = r0 :: rest
    /\ CsvReader.read false (csv_text r0 rest)
       = [[("Item", "pen, blue"); ("Qty", EmptyString)];
          [("Item", "ink"); ("Qty", EmptyString)]].
Proof.
  apply (loaded_rows_round_trip [JStr "Item"; JStr "Qty"]
           [JStr "pen, blue"; JNum zero] [[JStr "ink"]]).
  - discriminate.
  - distinct_strings.
  - cbv. intros [H|[H|[]]]; discriminate H.
  - repeat constructor.
  - repeat constructor.
Defined.

Lemma bar_chart_order_of_ties_witness :
  JsObject.keys
    (repair_counts [[("System Number", JStr "B")];
                    [("System Number", JStr "C")];
                    [("System Number", JStr "B")]])
  = first_seen ["B"; "C"; "B"].
Proof.
  destruct (bar_chart_order_of_ties [[("System Number", JStr "B")];
                                     [("System Number", JStr "C")];
                                     [("System Number", JStr "B")]])
    as (groups & _ & _ & _ & K).
  - repeat constructor.
  - apply K. repeat constructor.
Defined.

